(** * The add-on builder of [aab/builder.py], embedded and verified

    The builder turns a repository checkout into a named [.ankiaddon]
    archive.  Everything it does is an effect on the file system or a call
    to a collaborator (Git, the manifest writer, the UI builder, ...), so
    the embedding is a small monad that threads the file system, can raise
    a Python exception, and emits the calls it makes as a list of events.

    Layout: strings and paths, the file-system tree, the monad and the
    library primitives ([pathlib], [shutil], [os], [zipfile]), the
    collaborators, the builder itself, a sample repository, what each
    stage is expected to do, and then the theorems. *)

From Stdlib Require Import List String Ascii Bool Arith Lia ZArith.
Import ListNotations.

Local Open Scope list_scope.
Local Open Scope bool_scope.

Infix "+:+" := String.append (at level 60, right associativity).

(** ** Strings *)

Module Str.

(** [s[n:]] *)
Definition drop (n : nat) (s : string) : string :=
  String.substring n (String.length s - n) s.

(** [s.startswith(p)] *)
Definition startswith (p s : string) : bool := String.prefix p s.

(** [s.endswith("/")] *)
Fixpoint ends_with_slash (s : string) : bool :=
  match s with
  | EmptyString => false
  | String c EmptyString => Ascii.eqb c "/"
  | String _ s' => ends_with_slash s'
  end.

(** ["/" in s] *)
Fixpoint has_slash (s : string) : bool :=
  match s with
  | EmptyString => false
  | String c s' => Ascii.eqb c "/" || has_slash s'
  end.

(** [s.rfind(".")], [None] for Python's [-1]. *)
Fixpoint rfind_dot (s : string) : option nat :=
  match s with
  | EmptyString => None
  | String c s' =>
      match rfind_dot s' with
      | Some i => Some (S i)
      | None => if Ascii.eqb c "." then Some 0 else None
      end
  end.

(** [sep.join(l)] is [String.concat sep l]. *)
Definition join (sep : string) (l : list string) : string :=
  String.concat sep l.

Definition nl : string := String (ascii_of_nat 10) EmptyString.

End Str.

(** [os.path.join(a, b)] of [posixpath], for two arguments. *)
Definition os_path_join (a b : string) : string :=
  if Str.startswith "/" b then b
  else if (a =? "")%string || Str.ends_with_slash a then a +:+ b
  else a +:+ "/" +:+ b.

(** ** Paths

    A [pathlib] path is kept as its list of components below the
    file-system root; all paths of the builder are absolute ([PATH_ROOT]
    is the working directory).  A string joined to a path is one
    component (it holds no separator); joining the empty string is a
    no-op, as in [PATH_DIST / "resources" / "icons" / ""]. *)

Definition path := list string.

Definition joinpath (p : path) (s : string) : path :=
  if (s =? "")%string then p else p ++ [s].

Notation "p // s" := (joinpath p s) (at level 40, left associativity).

(** [str(p)] *)
Definition str (p : path) : string :=
  match p with
  | [] => "/"%string
  | _ => "/" +:+ Str.join "/" p
  end.

(** [p.stem]: the final component without its last suffix
    ([i = name.rfind("."); name[:i] if 0 < i < len(name) - 1 else name]). *)
Definition stem_of_name (name : string) : string :=
  match Str.rfind_dot name with
  | Some i =>
      if (0 <? i) && (i <? String.length name - 1)
      then String.substring 0 i name
      else name
  | None => name
  end.

Definition basename (p : path) : string := List.last p ""%string.

Definition stem (p : path) : string := stem_of_name (basename p).

Definition parent (p : path) : path := List.removelast p.

(** ** The file system

    A tree of directories and files.  A directory keeps its entries in
    the order in which [scandir] lists them.  A file is readable or not
    (opening an unreadable file raises [PermissionError]) and holds
    either plain bytes or a zip archive, open (no central directory yet)
    or closed. *)

#[local] Set Warnings "-register-all".

Inductive content : Type :=
| Bytes (s : string)
| Zip (closed : bool) (entries : list (string * content)).

Inductive node : Type :=
| File (readable : bool) (c : content)
| Dir (children : list (string * node)).

(** Induction on the tree, with the hypothesis for every entry of a
    directory. *)
Section NodeInd.

Variable P : node -> Prop.
Hypothesis HFile : forall r c, P (File r c).
Hypothesis HDir : forall es, Forall (fun e => P (snd e)) es -> P (Dir es).

Fixpoint node_rect' (n : node) : P n :=
  match n with
  | File r c => HFile r c
  | Dir es =>
      HDir es
        ((fix go (es : list (string * node)) : Forall (fun e => P (snd e)) es :=
            match es with
            | [] => Forall_nil _
            | (x, c) :: es' => Forall_cons (x, c) (node_rect' c) (go es')
            end) es)
  end.

End NodeInd.

Definition is_dir_node (n : node) : bool :=
  match n with Dir _ => true | File _ _ => false end.

Section Assoc.
Context {A : Type}.

Fixpoint assoc (k : string) (l : list (string * A)) : option A :=
  match l with
  | [] => None
  | (k', v) :: l' => if (k =? k')%string then Some v else assoc k l'
  end.

(** Replace the entry in place, or add it at the end. *)
Fixpoint assoc_set (k : string) (v : A) (l : list (string * A)) : list (string * A) :=
  match l with
  | [] => [(k, v)]
  | (k', v') :: l' =>
      if (k =? k')%string then (k, v) :: l' else (k', v') :: assoc_set k v l'
  end.

(** Drop the entry (every entry of that name). *)
Definition assoc_del (k : string) (l : list (string * A)) : list (string * A) :=
  filter (fun e => negb (k =? fst e)%string) l.
End Assoc.

Module FS.

Fixpoint lookup (p : path) (n : node) : option node :=
  match p with
  | [] => Some n
  | x :: p' =>
      match n with
      | Dir es =>
          match assoc x es with
          | Some c => lookup p' c
          | None => None
          end
      | File _ _ => None
      end
  end.

(** Set the node at [p]; the parent of [p] must be a directory. *)
Fixpoint put (p : path) (v : node) (n : node) : option node :=
  match p with
  | [] => Some v
  | x :: p' =>
      match n with
      | Dir es =>
          let sub :=
            match p' with
            | [] => Some v
            | _ => match assoc x es with
                   | Some c => put p' v c
                   | None => None
                   end
            end in
          match sub with
          | Some c' => Some (Dir (assoc_set x c' es))
          | None => None
          end
      | File _ _ => None
      end
  end.

(** Remove the node at [p] (nothing happens when it is not there). *)
Fixpoint remove (p : path) (n : node) : node :=
  match p with
  | [] => n
  | x :: p' =>
      match n with
      | Dir es =>
          match p' with
          | [] => Dir (assoc_del x es)
          | _ => match assoc x es with
                 | Some c => Dir (assoc_set x (remove p' c) es)
                 | None => n
                 end
          end
      | File _ _ => n
      end
  end.

(** Create the directory [p] and every missing ancestor; [None] when an
    ancestor is a regular file. *)
Fixpoint mkdirs (p : path) (n : node) : option node :=
  match p with
  | [] => if is_dir_node n then Some n else None
  | x :: p' =>
      match n with
      | Dir es =>
          let child := match assoc x es with Some c => c | None => Dir [] end in
          match mkdirs p' child with
          | Some c' => Some (Dir (assoc_set x c' es))
          | None => None
          end
      | File _ _ => None
      end
  end.

Definition exists_ (p : path) (n : node) : bool :=
  match lookup p n with Some _ => true | None => false end.

Definition is_dir (p : path) (n : node) : bool :=
  match lookup p n with Some (Dir _) => true | _ => false end.

(** The entries of the directory [p] whose name starts with [prefix], in
    listing order; nothing when [p] is not a directory. *)
Definition glob (p : path) (prefix : string) (n : node) : list path :=
  match lookup p n with
  | Some (Dir es) =>
      map (fun e => p ++ [fst e])
          (filter (fun e => Str.startswith prefix (fst e)) es)
  | _ => []
  end.

End FS.

(** ** Events, exceptions and the monad *)

Inductive level := INFO | ERROR.

(** Modelled from the spec: the members of the enum [QtVersion] of
    [aab/ui.py], a module outside [builder.py]; the builder reads only
    their [name], and the targets the spec names are [qt5] and [qt6]. *)
Record QtVersion := { name : string }.

Definition qt5 : QtVersion := {| name := "qt5" |}.
Definition qt6 : QtVersion := {| name := "qt6" |}.

(** The add-on properties of [Config()] ([aab/config.py]), a mapping
    validated on load, so that the keys the builder reads are present. *)
Record Config := {
  display_name : string;
  module_name : string;
  repo_name : string
}.

(** Every call the builder makes that leaves the process: log records,
    read-only queries of Git, and the calls that change the file system. *)
Inductive event :=
| Log (l : level) (msg : string)
| GitParseVersion (selector : option string)
| Shell (cmd : string)
| Rmtree (p : path)
| Mkdir (p : path)
| Unlink (p : path)
| CopyFile (src dst : path)
| Purge (dir : string) (patterns : list string) (recursive : bool)
| GitArchive (version : string) (dst : path)
| CopyRecursively (src dst : path)
| CallbackArchive
| WriteManifest (props : Config) (version dist_type : string) (target_dir : path)
| UIBuild (root : path) (qt : QtVersion) (pyenv : option string)
| CreateQtShim (root : path)
| ZipOpen (p : path)
| ZipWrite (zip : path) (filename arcname : string)
| ZipClose (p : path).

(** The events that delete or write files.  The only shell command of
    the builder is [git status --porcelain], a query. *)
Definition mutating (e : event) : bool :=
  match e with
  | Log _ _ | GitParseVersion _ | Shell _ => false
  | _ => true
  end.

(** [OSError] stands for it and its subclasses ([FileNotFoundError],
    [IsADirectoryError], [PermissionError], ...), with the file name. *)
Inductive exn :=
| SystemExit (code : Z)
| OSError (filename : string)
| CollaboratorError (what : string).

Inductive outcome (A : Type) :=
| Ret (a : A)
| Raise (e : exn).
Arguments Ret {A} a.
Arguments Raise {A} e.

(** What a computation leaves behind: its outcome, the file system, and
    the events it emitted, oldest first. *)
Record res (A : Type) := Res {
  out : outcome A;
  fs_of : node;
  events : list event
}.
Arguments Res {A} _ _ _.
Arguments out {A} _.
Arguments fs_of {A} _.
Arguments events {A} _.

Definition M (A : Type) : Type := node -> res A.

Definition ret {A} (a : A) : M A := fun fs => Res (Ret a) fs [].

Definition raise {A} (e : exn) : M A := fun fs => Res (Raise e) fs [].

Definition bind {A B} (m : M A) (k : A -> M B) : M B :=
  fun fs =>
    let r := m fs in
    match out r with
    | Ret a =>
        let r' := k a (fs_of r) in
        Res (out r') (fs_of r') (events r ++ events r')
    | Raise e => Res (Raise e) (fs_of r) (events r)
    end.

Notation "x <- m ;; k" := (bind m (fun x => k))
  (at level 61, m at next level, right associativity).
Notation "m ;; k" := (bind m (fun _ => k))
  (at level 61, right associativity).

Definition emit (e : event) : M unit := fun fs => Res (Ret tt) fs [e].

Definition get_fs : M node := fun fs => Res (Ret fs) fs [].

Definition set_fs (fs' : node) : M unit := fun _ => Res (Ret tt) fs' [].

(** [try: m finally: fin] *)
Definition finally {A} (m : M A) (fin : M unit) : M A :=
  fun fs =>
    let r := m fs in
    let r' := fin (fs_of r) in
    match out r' with
    | Ret _ => Res (out r) (fs_of r') (events r ++ events r')
    | Raise e => Res (Raise e) (fs_of r') (events r ++ events r')
    end.

(** [for x in l: f(x)] *)
Fixpoint for_ {A} (l : list A) (f : A -> M unit) : M unit :=
  match l with
  | [] => ret tt
  | x :: l' => f x ;; for_ l' f
  end.

(** A collaborator's effect on the file system; it may fail half-way. *)
Definition effect : Type := node -> outcome unit * node.

(** Call a collaborator: the call is recorded, then it runs. *)
Definition call (e : event) (f : effect) : M unit :=
  fun fs => let '(o, fs') := f fs in Res o fs' [e].

Definition logging (l : level) (msg : string) : M unit := emit (Log l msg).

(** ** Library primitives *)

Definition path_eqb (p q : path) : bool :=
  if list_eq_dec string_dec p q then true else false.

(** [p.exists()] and [p.is_dir()] *)
Definition exists_ (p : path) : M bool :=
  fs <- get_fs ;; ret (FS.exists_ p fs).

Definition is_dir (p : path) : M bool :=
  fs <- get_fs ;; ret (FS.is_dir p fs).

(** [p.unlink()]: removes a file, fails on a directory or a missing path. *)
Definition unlink (p : path) : M unit :=
  emit (Unlink p) ;;
  fs <- get_fs ;;
  match FS.lookup p fs with
  | Some (File _ _) => set_fs (FS.remove p fs)
  | _ => raise (OSError (str p))
  end.

(** [shutil.rmtree(str(p))]: removes a directory tree, fails on anything else. *)
Definition rmtree (p : path) : M unit :=
  emit (Rmtree p) ;;
  fs <- get_fs ;;
  match FS.lookup p fs with
  | Some (Dir _) => set_fs (FS.remove p fs)
  | _ => raise (OSError (str p))
  end.

(** [p.mkdir(parents=True)]: fails when [p] exists ([exist_ok] is not
    given) or an ancestor is a file. *)
Definition mkdir_parents (p : path) : M unit :=
  emit (Mkdir p) ;;
  fs <- get_fs ;;
  if FS.exists_ p fs then raise (OSError (str p))
  else match FS.mkdirs p fs with
       | Some fs' => set_fs fs'
       | None => raise (OSError (str p))
       end.

(** The copy underneath [shutil.copyfile] and [shutil.copy]: the source
    must be a readable regular file other than the destination, the
    destination must not be a directory and its parent must exist. *)
Definition copy_to (src dst : path) (mode : option bool) : M unit :=
  emit (CopyFile src dst) ;;
  fs <- get_fs ;;
  if path_eqb src dst then raise (OSError (str src))
  else match FS.lookup src fs with
       | Some (File true c) =>
           let keep := match FS.lookup dst fs with
                       | Some (File r _) => r
                       | _ => true
                       end in
           let r := match mode with Some m => m | None => keep end in
           if FS.is_dir dst fs then raise (OSError (str dst))
           else match FS.put dst (File r c) fs with
                | Some fs' => set_fs fs'
                | None => raise (OSError (str dst))
                end
       | _ => raise (OSError (str src))
       end.

(** [shutil.copyfile(str(src), str(dst))] *)
Definition copyfile (src dst : path) : M unit := copy_to src dst None.

(** [shutil.copy(str(src), str(dst))]: into [dst] when it is a directory,
    and the mode of the source is copied too. *)
Definition copy (src dst : path) : M unit :=
  fs <- get_fs ;;
  let dst := if FS.is_dir dst fs then dst ++ [basename src] else dst in
  copy_to src dst (Some true).

(** [p.glob(prefix + "*")] *)
Definition glob_prefix (p : path) (prefix : string) : M (list path) :=
  fs <- get_fs ;; ret (FS.glob p prefix fs).

(** [os.walk(top)], top-down and without following links: one triple
    [(root, dirs, files)] per directory.  A top that cannot be listed
    yields nothing ([onerror] is not given).  Each file name comes with
    the file it names, which is what opening [os.path.join(root, file)]
    then reads. *)
Definition walk_dirs (es : list (string * node)) : list string :=
  map fst (filter (fun e => is_dir_node (snd e)) es).

Definition walk_files (es : list (string * node)) : list (string * node) :=
  filter (fun e => negb (is_dir_node (snd e))) es.

Fixpoint os_walk (top : string) (n : node)
  : list (string * list string * list (string * node)) :=
  match n with
  | File _ _ => []
  | Dir es =>
      (top, walk_dirs es, walk_files es) ::
      flat_map (fun e =>
                  let '(d, child) := e in
                  if is_dir_node child
                  then os_walk (os_path_join top d) child
                  else []) es
  end.

(** [zipfile.ZipFile(str(p), "w", ZIP_DEFLATED)]: the file is created or
    truncated at once.  Members are appended as they are written; the
    central directory, without which the file is not a readable archive,
    is written by [close()]. *)
Definition zip_open (p : path) : M unit :=
  emit (ZipOpen p) ;;
  fs <- get_fs ;;
  if FS.is_dir p fs then raise (OSError (str p))
  else match FS.put p (File true (Zip false [])) fs with
       | Some fs' => set_fs fs'
       | None => raise (OSError (str p))
       end.

(** [myzip.write(filename, arcname)], [src] being the file at [filename]:
    the source is opened before anything is added to the archive. *)
Definition zip_write (p : path) (filename arcname : string) (src : node) : M unit :=
  emit (ZipWrite p filename arcname) ;;
  match src with
  | File true c =>
      fs <- get_fs ;;
      match FS.lookup p fs with
      | Some (File r (Zip false es)) =>
          match FS.put p (File r (Zip false (es ++ [(arcname, c)]))) fs with
          | Some fs' => set_fs fs'
          | None => raise (OSError (str p))
          end
      | _ => raise (OSError (str p))
      end
  | _ => raise (OSError filename)
  end.

(** [myzip.close()] *)
Definition zip_close (p : path) : M unit :=
  emit (ZipClose p) ;;
  fs <- get_fs ;;
  match FS.lookup p fs with
  | Some (File r (Zip false es)) =>
      match FS.put p (File r (Zip true es)) fs with
      | Some fs' => set_fs fs'
      | None => raise (OSError (str p))
      end
  | _ => raise (OSError (str p))
  end.

(** [with zipfile.ZipFile(...) as myzip: body]: [__exit__] closes the
    archive whether or not the body raised. *)
Definition with_ZipFile {A} (p : path) (body : M A) : M A :=
  zip_open p ;; finally body (zip_close p).

(** ** Collaborators

    The modules the builder imports and that are not part of
    [builder.py]: the two path constants, Git, the shell, the trash
    purge, the recursive copy, the configuration, the manifest writer
    and the UI builder.  They are parameters of the development.  The
    two queries of [__init__] are taken to return (the empty string for
    "nothing"); the others act on the file system and may raise. *)

Record Env := {
  PATH_ROOT : path;
  PATH_DIST : path;
  (** [Git().parse_version(selector)]; the empty string for "no version". *)
  parse_version : option string -> string;
  (** [call_shell(cmd)] *)
  call_shell : string -> string;
  (** [Git().archive(version, dst)] *)
  archive : string -> path -> effect;
  (** [purge(dir, patterns, recursive)] *)
  purge : string -> list string -> bool -> effect;
  (** [copy_recursively(src, dst)] *)
  copy_recursively : path -> path -> effect;
  (** [Config()] *)
  load_config : outcome Config;
  (** [ManifestUtils.generate_and_write_manifest(...)] *)
  generate_and_write_manifest : Config -> string -> string -> path -> effect;
  (** [UIBuilder(root)._gui_path] *)
  gui_path : path -> path;
  (** [UIBuilder(root).build(qt_version, pyenv)] *)
  ui_build : path -> QtVersion -> option string -> effect;
  (** [UIBuilder(root).create_qt_shim()] *)
  create_qt_shim : path -> effect
}.

Definition lift {A} (o : outcome A) : M A := fun fs => Res o fs [].

(** ** The builder *)

Definition _trash_patterns : list string :=
  ["*.pyc"; "*.pyo"; "__pycache__"]%string.

Record AddonBuilder := {
  _version : string;
  _callback_archive : option effect;
  _config : Config;
  _path_dist_module : path
}.

Section Builder.

Variable E : Env.

Definition Git_parse_version (selector : option string) : M string :=
  emit (GitParseVersion selector) ;; ret (parse_version E selector).

Definition shell (cmd : string) : M string :=
  emit (Shell cmd) ;; ret (call_shell E cmd).

Definition clean_repo : M unit :=
  logging INFO "Cleaning repository..." ;;
  ex <- exists_ (PATH_DIST E) ;;
  (if ex then rmtree (PATH_DIST E) else ret tt) ;;
  call (Purge "." _trash_patterns true) (purge E "." _trash_patterns true).

Definition _paths_licenses : list path :=
  [PATH_DIST E; PATH_DIST E // "resources"].

Definition _path_optional_icons : path :=
  PATH_ROOT E // "resources" // "icons" // "optional".

Definition _path_changelog : path := PATH_DIST E // "CHANGELOG.md".

(** [AddonBuilder.__init__] *)
Definition __init__ (version : option string) (callback_archive : option effect)
  : M AddonBuilder :=
  v <- Git_parse_version version ;;
  git_status <- shell "git status --porcelain" ;;
  v <- (if (v =? "dev")%string && (git_status =? "")%string
        then Git_parse_version (Some "current"%string)
        else ret v) ;;
  (if (v =? "")%string
   then logging ERROR "Error: Version could not be determined through Git" ;;
        raise (SystemExit 1)
   else ret tt) ;;
  config <- lift (load_config E) ;;
  ret {| _version := v;
         _callback_archive := callback_archive;
         _config := config;
         _path_dist_module := PATH_DIST E // "src" // module_name config |}.

(** [AddonBuilder.create_dist] *)
Definition create_dist (self : AddonBuilder) : M unit :=
  logging INFO ("Preparing source tree for " +:+ display_name (_config self)
                +:+ " " +:+ _version self +:+ " ...") ;;
  clean_repo ;;
  mkdir_parents (PATH_DIST E) ;;
  call (GitArchive (_version self) (PATH_DIST E))
       (archive E (_version self) (PATH_DIST E)).

(** [AddonBuilder._write_manifest] *)
Definition _write_manifest (self : AddonBuilder) (disttype : string) : M unit :=
  call (WriteManifest (_config self) (_version self) disttype (_path_dist_module self))
       (generate_and_write_manifest E (_config self) (_version self) disttype
                                    (_path_dist_module self)).

(** [AddonBuilder._copy_licenses] *)
Definition _copy_licenses (self : AddonBuilder) : M unit :=
  logging INFO "Copying licenses..." ;;
  for_ _paths_licenses (fun path =>
    d <- is_dir path ;;
    if negb d then ret tt
    else
      files <- glob_prefix path "LICENSE" ;;
      for_ files (fun file =>
        let target := _path_dist_module self // (stem file +:+ ".txt") in
        copyfile file target)).

(** [AddonBuilder._copy_changelog] *)
Definition _copy_changelog (self : AddonBuilder) : M unit :=
  logging INFO "Copying changelog..." ;;
  let target := _path_dist_module self // "CHANGELOG.md" in
  copy _path_changelog target.

(** [AddonBuilder._copy_optional_icons] *)
Definition _copy_optional_icons (self : AddonBuilder) : M unit :=
  logging INFO "Copying additional icons..." ;;
  let dst := PATH_DIST E // "resources" // "icons" // "" in
  call (CopyRecursively _path_optional_icons dst)
       (copy_recursively E _path_optional_icons dst).

(** [AddonBuilder.build_dist] *)
Definition build_dist (self : AddonBuilder) (qt_versions : list QtVersion)
           (disttype : string) (pyenv : option string) : M unit :=
  _copy_licenses self ;;
  has_changelog <- exists_ _path_changelog ;;
  (if has_changelog then _copy_changelog self else ret tt) ;;
  has_icons <- exists_ _path_optional_icons ;;
  (if has_icons then _copy_optional_icons self else ret tt) ;;
  match _callback_archive self with
  | Some callback => call CallbackArchive callback
  | None => ret tt
  end ;;
  _write_manifest self disttype ;;
  let root := PATH_DIST E in
  for_ qt_versions (fun qt_version =>
    call (UIBuild root qt_version pyenv) (ui_build E root qt_version pyenv)) ;;
  has_gui <- exists_ (gui_path E root) ;;
  if has_gui
  then logging INFO "Writing Qt compatibility shim..." ;;
       call (CreateQtShim root) (create_qt_shim E root) ;;
       logging INFO "Done."
  else ret tt.

(** The name computed in [AddonBuilder._package]. *)
Definition out_name (repo_name version : string) (qt_versions : list QtVersion)
           (disttype : string) : string :=
  let ext := "ankiaddon"%string in
  let qt_version_str := Str.join "+" (map name qt_versions) in
  let dist := if (disttype =? "local")%string then ""%string else "-" +:+ disttype in
  repo_name +:+ "-" +:+ version +:+ "-" +:+ qt_version_str +:+ dist +:+ "." +:+ ext.

(** [AddonBuilder._package] *)
Definition _package (self : AddonBuilder) (qt_versions : list QtVersion)
           (disttype : string) : M path :=
  logging INFO "Packaging add-on..." ;;
  let config := _config self in
  let to_zip := _path_dist_module self in
  let out_name := out_name (repo_name config) (_version self) qt_versions disttype in
  let out_path := PATH_ROOT E // "build" // out_name in
  ex <- exists_ out_path ;;
  (if ex then unlink out_path else ret tt) ;;
  with_ZipFile out_path (
    let rootlen := String.length (str to_zip) + 1 in
    fs <- get_fs ;;
    let walked := match FS.lookup to_zip fs with
                  | Some n => os_walk (str to_zip) n
                  | None => []
                  end in
    for_ walked (fun '(root, dirs, files) =>
      for_ files (fun '(file, src) =>
        let path := os_path_join root file in
        zip_write out_path path (Str.drop rootlen path) src))) ;;
  logging INFO ("Package saved as " +:+ out_name) ;;
  logging INFO "Done." ;;
  ret out_path.

(** [AddonBuilder.package_dist] *)
Definition package_dist (self : AddonBuilder) (qt_versions : list QtVersion)
           (disttype : string) : M path :=
  _package self qt_versions disttype.

(** [AddonBuilder.build] *)
Definition build (self : AddonBuilder) (qt_versions : list QtVersion)
           (disttype : string) (pyenv : option string) : M path :=
  logging INFO (Str.nl +:+ "--- Building " +:+ display_name (_config self) +:+ " "
                +:+ _version self +:+ " for " +:+ disttype +:+ " ---" +:+ Str.nl) ;;
  create_dist self ;;
  build_dist self qt_versions disttype pyenv ;;
  package_dist self qt_versions disttype.

End Builder.

(** ** A sample repository

    A concrete environment and file system on which the statements
    below are evaluated. *)

Module Sample.

Local Open Scope string_scope.

Definition nop : effect := fun fs => (Ret tt, fs).

Definition config : Config :=
  {| display_name := "Foo"; module_name := "foo"; repo_name := "foo" |}.

(** An untagged checkout whose working tree is [status]. *)
Definition env (status : string) (current : string) : Env := {|
  PATH_ROOT := ["repo"];
  PATH_DIST := ["repo"; "build"; "dist"];
  parse_version := fun selector =>
    match selector with
    | None => "dev"
    | Some s => if s =? "current" then current else s
    end;
  call_shell := fun _ => status;
  archive := fun _ _ => nop;
  purge := fun _ _ _ => nop;
  copy_recursively := fun _ _ => nop;
  load_config := Ret config;
  generate_and_write_manifest := fun _ _ _ _ => nop;
  gui_path := fun root => root // "designer";
  ui_build := fun _ _ _ => nop;
  create_qt_shim := fun _ => nop
|}.

Definition clean : Env := env "" "1.2.3".
Definition dirty : Env := env " M src/foo/a.py" "1.2.3".
Definition unversioned : Env := env "" "".

Definition module : node :=
  Dir [("a.py", File true (Bytes "A"));
       ("sub", Dir [("b.py", File true (Bytes "B"))])].

Definition dist : node :=
  Dir [("LICENSE.txt", File true (Bytes "AGPL"));
       ("src", Dir [("foo", module)])].

Definition fs : node :=
  Dir [("repo", Dir [("build", Dir [("dist", dist)])])].

Definition builder (version : string) : AddonBuilder :=
  {| _version := version;
     _callback_archive := None;
     _config := config;
     _path_dist_module := ["repo"; "build"; "dist"; "src"; "foo"] |}.

End Sample.

(** ** Version resolution *)

Section Resolution.

Variable E : Env.

Local Open Scope string_scope.

(** The token [__init__] settles on, after the fallback. *)
Definition resolve (version : option string) : string :=
  let v := parse_version E version in
  if (v =? "dev") && (call_shell E "git status --porcelain" =? "")
  then parse_version E (Some "current")
  else v.

(** The queries [__init__] makes to get there. *)
Definition queries (version : option string) : list event :=
  [GitParseVersion version; Shell "git status --porcelain"] ++
  (if (parse_version E version =? "dev")
      && (call_shell E "git status --porcelain" =? "")
   then [GitParseVersion (Some "current")] else []).

(** The builder made from a resolved token: the configuration is loaded
    last, and its failure is the constructor's. *)
Definition constructed (v : string) (cb : option effect) (fs : node)
           (evs : list event) : res AddonBuilder :=
  match load_config E with
  | Ret config =>
      Res (Ret {| _version := v;
                  _callback_archive := cb;
                  _config := config;
                  _path_dist_module := PATH_DIST E // "src" // module_name config |})
          fs evs
  | Raise e => Res (Raise e) fs evs
  end.

End Resolution.

(** ** Packaging: what the archive is expected to hold *)

(** A name a directory entry can have: not empty, no separator. *)
Definition valid_name (s : string) : bool :=
  negb (s =? "")%string && negb (Str.has_slash s).

(** Every entry below [n] has a valid name. *)
Fixpoint valid_names (n : node) : bool :=
  match n with
  | File _ _ => true
  | Dir es => forallb (fun e => let '(x, c) := e in valid_name x && valid_names c) es
  end.

(** The files below a directory, each under its path relative to that
    directory: the files of the directory itself first, then those of
    its sub-directories, in listing order. *)
Fixpoint rel_files (n : node) : list (string * node) :=
  match n with
  | File _ _ => []
  | Dir es =>
      walk_files es ++
      flat_map (fun e =>
                  let '(d, child) := e in
                  if is_dir_node child
                  then map (fun f => (d +:+ "/" +:+ fst f, snd f)) (rel_files child)
                  else []) es
  end.

Definition content_of (n : node) : content :=
  match n with
  | File _ c => c
  | Dir _ => Bytes ""
  end.

Definition readable (n : node) : bool :=
  match n with
  | File r _ => r
  | Dir _ => false
  end.

(** The files the walk of [to_zip] finds, under their relative paths. *)
Definition subtree_files (to_zip : path) (fs : node) : list (string * node) :=
  match FS.lookup to_zip fs with
  | Some n => rel_files n
  | None => []
  end.

(** The files up to the first one that cannot be read, and that one. *)
Fixpoint written (fl : list (string * node)) : list (string * node) :=
  match fl with
  | [] => []
  | f :: fl' => if readable (snd f) then f :: written fl' else []
  end.

Fixpoint refused (fl : list (string * node)) : option (string * node) :=
  match fl with
  | [] => None
  | f :: fl' => if readable (snd f) then refused fl' else Some f
  end.

(** The archive member made from a file, and the call that makes it. *)
Definition member (f : string * node) : string * content :=
  (fst f, content_of (snd f)).

Definition write_of (out_path to_zip : path) (f : string * node) : event :=
  ZipWrite out_path (str to_zip +:+ "/" +:+ fst f) (fst f).

(** Neither path is an ancestor of the other (nor equal to it). *)
Fixpoint diverge (p q : path) : bool :=
  match p, q with
  | x :: p', y :: q' => if (x =? y)%string then diverge p' q' else true
  | _, _ => false
  end.

(** The pairs [(path, file)] the double loop of [_package] visits, given
    what [os.walk] returned. *)
Definition loop_items (walked : list (string * list string * list (string * node)))
  : list (string * node) :=
  flat_map (fun t =>
              let '(root, _, files) := t in
              map (fun f => (os_path_join root (fst f), snd f)) files) walked.

(** The events of a run of [_package] over the files [fl], the output
    path being there before or not. *)
Definition package_events (out_path to_zip : path) (out_name : string)
           (there : bool) (fl : list (string * node)) : list event :=
  [Log INFO "Packaging add-on..."] ++
  (if there then [Unlink out_path] else []) ++
  [ZipOpen out_path] ++
  map (write_of out_path to_zip) (written fl) ++
  match refused fl with
  | Some f => [write_of out_path to_zip f; ZipClose out_path]
  | None => [ZipClose out_path;
             Log INFO ("Package saved as " +:+ out_name);
             Log INFO "Done."]
  end.

(** How such a run ends: with the output path, or with the error of the
    first file that cannot be read. *)
Definition package_outcome (out_path to_zip : path) (fl : list (string * node))
  : outcome path :=
  match refused fl with
  | Some f => Raise (OSError (str to_zip +:+ "/" +:+ fst f))
  | None => Ret out_path
  end.

(** The path [_package] writes to, and the file system it starts the
    archive on: the one it was given, less a file at that path. *)
Definition out_path_of (E : Env) (self : AddonBuilder) (qt_versions : list QtVersion)
           (disttype : string) : path :=
  PATH_ROOT E // "build"
    // out_name (repo_name (_config self)) (_version self) qt_versions disttype.

Definition cleared (out_path : path) (fs : node) : node :=
  if FS.exists_ out_path fs then FS.remove out_path fs else fs.

Module SampleRuns.

Local Open Scope string_scope.

(** The sample tree with [sub/b.py] made unreadable. *)
Definition locked : node :=
  Dir [("repo",
        Dir [("build",
              Dir [("dist",
                    Dir [("src",
                          Dir [("foo",
                                Dir [("a.py", File true (Bytes "A"));
                                     ("sub", Dir [("b.py", File false (Bytes "B"))])])])])])])].

(** The sample tree after an earlier build of the same name. *)
Definition rebuilt : node :=
  Dir [("repo",
        Dir [("build",
              Dir [("foo-1.2.3-qt5+qt6.ankiaddon", File true (Bytes "stale"));
                   ("dist", Sample.dist)])])].

(** The sample tree with a license in each candidate directory. *)
Definition licensed : node :=
  Dir [("repo",
        Dir [("build",
              Dir [("dist",
                    Dir [("LICENSE", File true (Bytes "AGPL"));
                         ("README.md", File true (Bytes "readme"));
                         ("resources",
                          Dir [("LICENSE.fonts.md", File true (Bytes "OFL"))]);
                         ("src", Dir [("foo", Sample.module)])])])])].

End SampleRuns.

(** ** Augmentation: the steps of [build_dist] *)

Inductive step :=
| StepLicenses
| StepChangelog
| StepIcons
| StepCallback
| StepManifest (dist_type : string)
| StepCompile (qt : QtVersion) (pyenv : option string)
| StepShim.

(** The event by which a step shows: the record that [_copy_licenses] and
    [_copy_changelog] log on entry, and the call to the collaborator for
    the others. *)
Definition step_of (e : event) : option step :=
  match e with
  | Log INFO msg =>
      if (msg =? "Copying licenses...")%string then Some StepLicenses
      else if (msg =? "Copying changelog...")%string then Some StepChangelog
      else None
  | CopyRecursively _ _ => Some StepIcons
  | CallbackArchive => Some StepCallback
  | WriteManifest _ _ dist_type _ => Some (StepManifest dist_type)
  | UIBuild _ qt pyenv => Some (StepCompile qt pyenv)
  | CreateQtShim _ => Some StepShim
  | _ => None
  end.

Definition steps (evs : list event) : list step :=
  flat_map (fun e => match step_of e with Some s => [s] | None => [] end) evs.

Definition succeeded {A} (o : outcome A) : bool :=
  match o with Ret _ => true | Raise _ => false end.

(** A run keeps to a plan: the steps it takes are the first steps of the
    plan, and all of them when it does not raise. *)
Definition keeps_to {A} (r : res A) (plan : list step) : Prop :=
  (exists rest, plan = steps (events r) ++ rest) /\
  (succeeded (out r) = true -> steps (events r) = plan).

(** ** License copy: what is expected *)

(** The copies [_copy_licenses] is to make on [fs], as pairs of a source
    and a target, in order: per candidate directory, every entry matching
    [LICENSE*], to [<stem>.txt] in the module directory. *)
Definition license_target (self : AddonBuilder) (file : path) : path :=
  _path_dist_module self // (stem file +:+ ".txt").

Definition license_copies (E : Env) (self : AddonBuilder) (fs : node)
  : list (path * path) :=
  flat_map (fun dir => map (fun file => (file, license_target self file))
                           (FS.glob dir "LICENSE" fs))
           (_paths_licenses E).

(** A copy can be made: the source is a readable regular file, the
    target is not a directory and the module directory is there. *)
Definition copyable (self : AddonBuilder) (fs : node) (c : path * path) : bool :=
  match FS.lookup (fst c) fs with
  | Some (File true _) =>
      negb (FS.is_dir (snd c) fs) && FS.is_dir (_path_dist_module self) fs
  | _ => false
  end.

(** The same copies with the target given by its name in the module
    directory. *)
Definition license_names (E : Env) (fs : node) : list (path * string) :=
  flat_map (fun dir => map (fun file => (file, stem file +:+ ".txt"))
                           (FS.glob dir "LICENSE" fs))
           (_paths_licenses E).

(** The names within every directory below [n] are distinct. *)
Fixpoint nodup_names (l : list string) : bool :=
  match l with
  | [] => true
  | x :: l' => negb (existsb (String.eqb x) l') && nodup_names l'
  end.

Fixpoint distinct_names (n : node) : bool :=
  match n with
  | File _ _ => true
  | Dir es =>
      nodup_names (map fst es) &&
      forallb (fun e => let '(_, c) := e in distinct_names c) es
  end.

(** ** Classes of events, and what a computation leaves alone *)

(** The events of [_package]: those on the output path. *)
Definition packaging_event (e : event) : bool :=
  match e with
  | Unlink _ | ZipOpen _ | ZipWrite _ _ _ | ZipClose _ => true
  | _ => false
  end.

(** A log record or a file copy. *)
Definition copy_event (e : event) : bool :=
  match e with
  | Log _ _ | CopyFile _ _ => true
  | _ => false
  end.

(** The calls that carry the version into the export and the manifest. *)
Definition version_event (e : event) : bool :=
  match e with
  | GitArchive _ _ | WriteManifest _ _ _ _ => true
  | _ => false
  end.

(** Every event of every run of [m] is in the class [P]. *)
Definition emits {A} (P : event -> bool) (m : M A) : Prop :=
  forall fs, forallb P (events (m fs)) = true.

(** No run of [m] changes what is at [q]. *)
Definition leaves {A} (q : path) (m : M A) : Prop :=
  forall fs, FS.lookup q (fs_of (m fs)) = FS.lookup q fs.

(** The calls each stage may make. *)
Definition export_event (e : event) : bool :=
  match e with
  | Log _ _ | Rmtree _ | Purge _ _ _ | Mkdir _ | GitArchive _ _ => true
  | _ => false
  end.

Definition augment_event (e : event) : bool :=
  match e with
  | Log _ _ | CopyFile _ _ | CopyRecursively _ _ | CallbackArchive
  | WriteManifest _ _ _ _ | UIBuild _ _ _ | CreateQtShim _ => true
  | _ => false
  end.

Definition package_stage_event (e : event) : bool :=
  match e with
  | Log _ _ => true
  | _ => packaging_event e
  end.

(** The calls of the augmentation other than the manifest. *)
Definition quiet_event (e : event) : bool :=
  augment_event e && negb (version_event e).

(** ** More sample repositories *)

Module SampleEdges.

Local Open Scope string_scope.

(** The sample environment with another purge or configuration. *)
Definition with_purge (E : Env) (f : string -> list string -> bool -> effect) : Env := {|
  PATH_ROOT := PATH_ROOT E;
  PATH_DIST := PATH_DIST E;
  parse_version := parse_version E;
  call_shell := call_shell E;
  archive := archive E;
  purge := f;
  copy_recursively := copy_recursively E;
  load_config := load_config E;
  generate_and_write_manifest := generate_and_write_manifest E;
  gui_path := gui_path E;
  ui_build := ui_build E;
  create_qt_shim := create_qt_shim E
|}.

Definition with_config (E : Env) (c : outcome Config) : Env := {|
  PATH_ROOT := PATH_ROOT E;
  PATH_DIST := PATH_DIST E;
  parse_version := parse_version E;
  call_shell := call_shell E;
  archive := archive E;
  purge := purge E;
  copy_recursively := copy_recursively E;
  load_config := c;
  generate_and_write_manifest := generate_and_write_manifest E;
  gui_path := gui_path E;
  ui_build := ui_build E;
  create_qt_shim := create_qt_shim E
|}.

Definition failing (what : string) : effect :=
  fun fs => (Raise (CollaboratorError what), fs).

Definition purge_fails : Env :=
  with_purge Sample.clean (fun _ _ _ => failing "purge").

Definition config_fails : Env :=
  with_config Sample.clean (Raise (CollaboratorError "addon.json")).

(** A builder with a callback that raises. *)
Definition builder_with_callback : AddonBuilder :=
  {| _version := "1.2.3";
     _callback_archive := Some (failing "callback");
     _config := Sample.config;
     _path_dist_module := ["repo"; "build"; "dist"; "src"; "foo"] |}.

Definition in_build (entries : list (string * node)) : node :=
  Dir [("repo", Dir [("build", Dir entries)])].

(** A directory where the archive should go. *)
Definition blocked : node :=
  in_build [("foo-1.2.3-qt5+qt6.ankiaddon", Dir []); ("dist", Sample.dist)].

(** No [build] directory; [build] a regular file; the working area a
    regular file. *)
Definition no_build : node := Dir [("repo", Dir [])].

Definition build_is_file : node :=
  Dir [("repo", Dir [("build", File true (Bytes "x"))])].

Definition dist_is_file : node := in_build [("dist", File true (Bytes "x"))].

(** An export without the module directory. *)
Definition no_module : node := in_build [("dist", Dir [])].

(** An export with a changelog, as a file and as a directory. *)
Definition with_changelog : node :=
  in_build [("dist", Dir [("CHANGELOG.md", File true (Bytes "1.2.3: fixes"));
                          ("src", Dir [("foo", Sample.module)])])].

Definition changelog_is_directory : node :=
  in_build [("dist", Dir [("CHANGELOG.md", Dir []);
                          ("src", Dir [("foo", Sample.module)])])].

(** A [LICENSES] folder in the export; a license but no module
    directory. *)
Definition licenses_folder : node :=
  in_build [("dist", Dir [("LICENSES", Dir [("MIT.txt", File true (Bytes "MIT"))]);
                          ("src", Dir [("foo", Sample.module)])])].

Definition license_no_module : node :=
  in_build [("dist", Dir [("LICENSE", File true (Bytes "AGPL"))])].

End SampleEdges.

(** The loop over one candidate directory, as [_copy_licenses] has it. *)
Definition license_dir_loop (self : AddonBuilder) (dir : path) : M unit :=
  d <- is_dir dir ;;
  if negb d then ret tt
  else
    files <- glob_prefix dir "LICENSE" ;;
    for_ files (fun file =>
      copyfile file (_path_dist_module self // (stem file +:+ ".txt"))).

(** * Theorems *)

(** ** The monad *)

Lemma bind_run {A B} (m : M A) (k : A -> M B) (fs : node) :
  bind m k fs =
    match out (m fs) with
    | Ret a =>
        Res (out (k a (fs_of (m fs)))) (fs_of (k a (fs_of (m fs))))
            (events (m fs) ++ events (k a (fs_of (m fs))))
    | Raise e => Res (Raise e) (fs_of (m fs)) (events (m fs))
    end.
Proof. reflexivity. Qed.

Lemma bind_raise {A B} (m : M A) (k : A -> M B) (fs : node) (e : exn) :
  out (m fs) = Raise e ->
  bind m k fs = Res (Raise e) (fs_of (m fs)) (events (m fs)).
Proof. intros H. rewrite bind_run, H. reflexivity. Qed.

Lemma bind_ret {A B} (m : M A) (k : A -> M B) (fs : node) (a : A) :
  out (m fs) = Ret a ->
  bind m k fs =
    Res (out (k a (fs_of (m fs)))) (fs_of (k a (fs_of (m fs))))
        (events (m fs) ++ events (k a (fs_of (m fs)))).
Proof. intros H. rewrite bind_run, H. reflexivity. Qed.

(** ** Strings *)

Lemma append_assoc (a b c : string) : (a +:+ b) +:+ c = a +:+ (b +:+ c).
Proof. induction a as [| x a IH]; cbn; [reflexivity | now rewrite IH]. Qed.

Lemma length_append (a b : string) :
  String.length (a +:+ b) = String.length a + String.length b.
Proof. induction a as [| x a IH]; cbn; [reflexivity | now rewrite IH]. Qed.

Lemma substring_all (s : string) : String.substring 0 (String.length s) s = s.
Proof. induction s as [| x s IH]; cbn; [reflexivity | now rewrite IH]. Qed.

Lemma drop_append (a b : string) : Str.drop (String.length a) (a +:+ b) = b.
Proof.
  unfold Str.drop. rewrite length_append.
  replace (String.length a + String.length b - String.length a)
    with (String.length b) by lia.
  induction a as [| x a IH]; cbn; [apply substring_all | exact IH].
Qed.

Lemma ends_with_slash_append (a b : string) :
  b <> ""%string -> Str.ends_with_slash (a +:+ b) = Str.ends_with_slash b.
Proof.
  intros Hb. induction a as [| x a IH]; cbn; [reflexivity |].
  rewrite IH. destruct (a +:+ b) eqn:Hab; [| reflexivity].
  destruct a; cbn in Hab; [contradiction | discriminate].
Qed.

Lemma no_slash_no_trailing (s : string) :
  Str.has_slash s = false -> Str.ends_with_slash s = false.
Proof.
  induction s as [| x s IH]; cbn; [reflexivity |].
  intros H. apply orb_false_iff in H as [Hx Hs].
  destruct s; [exact Hx | now apply IH].
Qed.

Lemma valid_name_not_empty (s : string) : valid_name s = true -> s <> ""%string.
Proof.
  unfold valid_name. intros H. apply andb_true_iff in H as [H _].
  apply negb_true_iff, String.eqb_neq in H. exact H.
Qed.

Lemma valid_name_no_slash (s : string) :
  valid_name s = true -> Str.has_slash s = false.
Proof.
  unfold valid_name. intros H. apply andb_true_iff in H as [_ H].
  now apply negb_true_iff in H.
Qed.

Lemma valid_name_relative (s : string) :
  valid_name s = true -> Str.startswith "/" s = false.
Proof.
  intros H. pose proof (valid_name_no_slash s H) as Hs.
  destruct s as [| x s]; [reflexivity |].
  unfold Str.startswith. cbn [String.prefix].
  destruct (ascii_dec "/" x) as [<- | Hne]; [| reflexivity].
  cbn in Hs. discriminate.
Qed.

(** Joining a directory and the name of one of its entries. *)
Lemma os_path_join_entry (root name : string) :
  root <> ""%string -> Str.ends_with_slash root = false -> valid_name name = true ->
  os_path_join root name = root +:+ "/" +:+ name.
Proof.
  intros Hroot Hend Hname. unfold os_path_join.
  rewrite (valid_name_relative _ Hname), Hend.
  apply String.eqb_neq in Hroot. now rewrite Hroot.
Qed.

Lemma os_path_join_root (root name : string) :
  root <> ""%string -> Str.ends_with_slash root = false -> valid_name name = true ->
  os_path_join root name <> ""%string /\
  Str.ends_with_slash (os_path_join root name) = false.
Proof.
  intros Hroot Hend Hname. rewrite os_path_join_entry by assumption. split.
  - destruct root; [contradiction | discriminate].
  - rewrite ends_with_slash_append by discriminate.
    change ("/" +:+ name)%string with (String "/" name).
    pose proof (valid_name_not_empty _ Hname).
    cbn. destruct name; [contradiction |].
    apply no_slash_no_trailing, valid_name_no_slash, Hname.
Qed.

(** ** Directory listings *)

Section AssocFacts.

Context {A : Type}.
Implicit Types (k : string) (v : A) (l : list (string * A)).

Lemma assoc_set_same k v l : assoc k (assoc_set k v l) = Some v.
Proof.
  induction l as [| [k' v'] l IH]; cbn.
  - now rewrite String.eqb_refl.
  - destruct (k =? k')%string eqn:Hk; cbn.
    + now rewrite String.eqb_refl.
    + now rewrite Hk.
Qed.

Lemma assoc_set_other k k' v l :
  k <> k' -> assoc k' (assoc_set k v l) = assoc k' l.
Proof.
  intros Hne. induction l as [| [k0 v0] l IH]; cbn.
  - destruct (String.eqb_spec k' k); [congruence | reflexivity].
  - destruct (String.eqb_spec k k0) as [-> | Hk0]; cbn.
    + destruct (String.eqb_spec k' k0); [congruence | reflexivity].
    + destruct (k' =? k0)%string; [reflexivity | exact IH].
Qed.

Lemma assoc_set_set k v v' l :
  assoc_set k v' (assoc_set k v l) = assoc_set k v' l.
Proof.
  induction l as [| [k0 v0] l IH]; cbn.
  - now rewrite String.eqb_refl.
  - destruct (k =? k0)%string eqn:Hk; cbn.
    + now rewrite String.eqb_refl.
    + now rewrite Hk, IH.
Qed.

Lemma assoc_del_same k l : assoc k (assoc_del k l) = None.
Proof.
  unfold assoc_del. induction l as [| [k0 v0] l IH]; cbn; [reflexivity |].
  destruct (k =? k0)%string eqn:Hk; cbn; [exact IH |].
  now rewrite Hk.
Qed.

Lemma assoc_del_other k k' l :
  k <> k' -> assoc k' (assoc_del k l) = assoc k' l.
Proof.
  intros Hne. unfold assoc_del. induction l as [| [k0 v0] l IH]; cbn; [reflexivity |].
  destruct (String.eqb_spec k k0) as [-> | Hk0]; cbn.
  - destruct (String.eqb_spec k' k0); [congruence | exact IH].
  - destruct (k' =? k0)%string; [reflexivity | exact IH].
Qed.

Lemma assoc_del_set k v l : assoc_del k (assoc_set k v l) = assoc_del k l.
Proof.
  unfold assoc_del. induction l as [| [k0 v0] l IH]; cbn.
  - now rewrite String.eqb_refl.
  - destruct (k =? k0)%string eqn:Hk; cbn; rewrite ?String.eqb_refl, ?Hk; cbn.
    + reflexivity.
    + now rewrite IH.
Qed.

End AssocFacts.

(** ** The file-system tree *)

Lemma lookup_put_same (p : path) (v fs fs' : node) :
  FS.put p v fs = Some fs' -> FS.lookup p fs' = Some v.
Proof.
  revert fs fs'. induction p as [| x p IH]; intros fs fs'; cbn.
  - now intros [= ->].
  - destruct fs as [| es]; [discriminate |].
    destruct p as [| y p].
    + intros [= <-]. cbn. now rewrite assoc_set_same.
    + destruct (assoc x es) as [c |] eqn:Hc; [| discriminate].
      destruct (FS.put (y :: p) v c) as [c' |] eqn:Hput; [| discriminate].
      intros [= <-]. cbn [FS.lookup]. rewrite assoc_set_same.
      now apply (IH c).
Qed.

Lemma put_put (p : path) (v v' fs fs' : node) :
  FS.put p v fs = Some fs' -> FS.put p v' fs' = FS.put p v' fs.
Proof.
  revert fs fs'. induction p as [| x p IH]; intros fs fs'; cbn.
  - reflexivity.
  - destruct fs as [| es]; [discriminate |].
    destruct p as [| y p].
    + intros [= <-]. now rewrite assoc_set_set.
    + destruct (assoc x es) as [c |] eqn:Hc; [| discriminate].
      destruct (FS.put (y :: p) v c) as [c' |] eqn:Hput; [| discriminate].
      intros [= <-]. rewrite assoc_set_same, (IH _ _ Hput).
      destruct (FS.put (y :: p) v' c); [| reflexivity].
      now rewrite assoc_set_set.
Qed.

Lemma put_present (p : path) (v fs n : node) :
  FS.lookup p fs = Some n -> exists fs', FS.put p v fs = Some fs'.
Proof.
  revert fs. induction p as [| x p IH]; intros fs; cbn.
  - eauto.
  - destruct fs as [| es]; [discriminate |].
    destruct (assoc x es) as [c |] eqn:Hc; [| discriminate].
    intros Hl. destruct p as [| y p]; [eauto |].
    destruct (IH c Hl) as [c' ->]. eauto.
Qed.

Lemma put_in_dir (p : path) (v fs : node) :
  p <> [] -> FS.is_dir (parent p) fs = true -> exists fs', FS.put p v fs = Some fs'.
Proof.
  unfold FS.is_dir, parent.
  revert fs. induction p as [| x p IH]; intros fs Hp; [contradiction |].
  destruct p as [| y p]; cbn.
  - destruct fs; [discriminate | eauto].
  - destruct fs as [| es]; [discriminate |].
    destruct (assoc x es) as [c |] eqn:Hc; [| discriminate].
    intros Hl. destruct (IH c) as [c' Hc']; [discriminate | exact Hl |].
    cbn in Hc'. rewrite Hc'. eauto.
Qed.

Lemma lookup_put_diverge (p q : path) (v fs fs' : node) :
  diverge p q = true -> FS.put p v fs = Some fs' ->
  FS.lookup q fs' = FS.lookup q fs.
Proof.
  revert q fs fs'. induction p as [| x p IH]; intros q fs fs'; [discriminate |].
  destruct q as [| y q]; [discriminate |]. cbn [diverge FS.put].
  destruct fs as [| es]; [discriminate |].
  destruct (String.eqb_spec x y) as [<- | Hxy]; intros Hd.
  - destruct p as [| z p]; [discriminate |].
    destruct (assoc x es) as [c |] eqn:Hc; [| discriminate].
    destruct (FS.put (z :: p) v c) as [c' |] eqn:Hput; [| discriminate].
    intros [= <-]. cbn [FS.lookup]. rewrite assoc_set_same, Hc.
    now apply (IH q c).
  - intros Hput.
    assert (exists c', fs' = Dir (assoc_set x c' es)) as [c' ->].
    { destruct p as [| z p].
      - injection Hput as <-. eauto.
      - destruct (assoc x es) as [c |]; [| discriminate].
        destruct (FS.put (z :: p) v c) as [c' |]; [| discriminate].
        injection Hput as <-. eauto. }
    cbn [FS.lookup]. now rewrite assoc_set_other.
Qed.

Lemma lookup_remove_diverge (p q : path) (fs : node) :
  diverge p q = true -> FS.lookup q (FS.remove p fs) = FS.lookup q fs.
Proof.
  revert q fs. induction p as [| x p IH]; intros q fs; [discriminate |].
  destruct q as [| y q]; [discriminate |]. cbn [diverge FS.remove].
  destruct fs as [| es]; [reflexivity |].
  destruct (String.eqb_spec x y) as [<- | Hxy]; intros Hd.
  - destruct p as [| z p]; [discriminate |].
    destruct (assoc x es) as [c |] eqn:Hc; [| reflexivity].
    cbn [FS.lookup]. rewrite assoc_set_same, Hc. now apply IH.
  - destruct p as [| z p].
    + cbn [FS.lookup]. now rewrite assoc_del_other.
    + destruct (assoc x es) as [c |] eqn:Hc; [| reflexivity].
      cbn [FS.lookup]. now rewrite assoc_set_other.
Qed.

Lemma lookup_remove_same (p : path) (fs : node) :
  p <> [] -> FS.lookup p (FS.remove p fs) = None.
Proof.
  revert fs. induction p as [| x p IH]; intros fs Hp; [contradiction |].
  cbn [FS.remove]. destruct fs as [| es]; [reflexivity |].
  destruct p as [| y p].
  - cbn. now rewrite assoc_del_same.
  - destruct (assoc x es) as [c |] eqn:Hc.
    + cbn [FS.lookup]. rewrite assoc_set_same. now apply IH.
    + cbn [FS.lookup]. now rewrite Hc.
Qed.

Lemma remove_put (p : path) (v fs fs' : node) :
  p <> [] -> FS.put p v fs = Some fs' -> FS.remove p fs' = FS.remove p fs.
Proof.
  revert fs fs'. induction p as [| x p IH]; intros fs fs' Hp; [contradiction |].
  cbn [FS.put FS.remove]. destruct fs as [| es]; [discriminate |].
  destruct p as [| y p].
  - intros [= <-]. now rewrite assoc_del_set.
  - destruct (assoc x es) as [c |] eqn:Hc; [| discriminate].
    destruct (FS.put (y :: p) v c) as [c' |] eqn:Hput; [| discriminate].
    intros [= <-]. rewrite assoc_set_same, assoc_set_set.
    rewrite (IH c c'); [reflexivity | discriminate | exact Hput].
Qed.

Lemma put_keeps_parent (m : path) (t : string) (v fs fs' : node) :
  FS.put (m ++ [t]) v fs = Some fs' -> FS.is_dir m fs' = true.
Proof.
  unfold FS.is_dir.
  revert fs fs'. induction m as [| x m IH]; intros fs fs'; cbn [app FS.put].
  - destruct fs; [discriminate |]. now intros [= <-].
  - destruct fs as [| es]; [discriminate |].
    destruct (m ++ [t]) as [| y p] eqn:Hp; [now destruct m |].
    destruct (assoc x es) as [c |]; [| discriminate].
    destruct (FS.put (y :: p) v c) as [c' |] eqn:Hput; [| discriminate].
    intros [= <-]. cbn [FS.lookup]. rewrite assoc_set_same.
    now apply (IH c).
Qed.

Lemma parent_snoc (m : path) (t : string) : parent (m ++ [t]) = m.
Proof. apply removelast_last. Qed.

Lemma parent_remove (p : path) (fs : node) :
  p <> [] -> FS.is_dir (parent p) (FS.remove p fs) = FS.is_dir (parent p) fs.
Proof.
  unfold FS.is_dir, parent.
  revert fs. induction p as [| x p IH]; intros fs Hp; [contradiction |].
  cbn [FS.remove]. destruct fs as [| es]; [reflexivity |].
  destruct p as [| y p]; [reflexivity |].
  destruct (assoc x es) as [c |] eqn:Hc; [| reflexivity].
  cbn [removelast FS.lookup].
  rewrite assoc_set_same, Hc. apply IH. discriminate.
Qed.

(** ** Version resolution *)

Section ResolutionFacts.

Variable E : Env.

Local Open Scope string_scope.

Lemma init_run (version : option string) (cb : option effect) (fs : node) :
  __init__ E version cb fs =
    if resolve E version =? ""
    then Res (Raise (SystemExit 1)) fs
             (queries E version ++
              [Log ERROR "Error: Version could not be determined through Git"])
    else constructed E (resolve E version) cb fs (queries E version).
Proof.
  unfold __init__, resolve, queries, constructed, Git_parse_version, shell,
    logging, lift, bind, emit, ret, raise.
  cbn.
  destruct ((parse_version E version =? "dev")
            && (call_shell E "git status --porcelain" =? "")); cbn.
  - destruct (parse_version E (Some "current") =? ""); cbn; [reflexivity |].
    destruct (load_config E); reflexivity.
  - destruct (parse_version E version =? ""); cbn; [reflexivity |].
    destruct (load_config E); reflexivity.
Qed.

(** On success the builder carries the resolved token. *)
Lemma init_version (version : option string) (cb : option effect) (fs : node)
      (self : AddonBuilder) :
  out (__init__ E version cb fs) = Ret self -> _version self = resolve E version.
Proof.
  rewrite init_run. unfold constructed.
  destruct (resolve E version =? ""); cbn; [discriminate |].
  destruct (load_config E); cbn; [| discriminate].
  intros H. injection H as <-. reflexivity.
Qed.

(** C1. Without an explicit version, in a checkout for which Git reports
    no version other than the provisional ["dev"]: when
    [git status --porcelain] reports nothing, [__init__] asks Git again
    with the selector ["current"] and builds with that token (exiting
    when it is empty) instead of ["dev"]; when the working tree is
    modified, the builder's version is ["dev"]. *)
Theorem init_untagged (cb : option effect) (fs : node) :
  parse_version E None = "dev" ->
  (call_shell E "git status --porcelain" = "" ->
   __init__ E None cb fs =
     let evs := [GitParseVersion None; Shell "git status --porcelain";
                 GitParseVersion (Some "current")] in
     if parse_version E (Some "current") =? ""
     then Res (Raise (SystemExit 1)) fs
              (evs ++ [Log ERROR "Error: Version could not be determined through Git"])%list
     else constructed E (parse_version E (Some "current")) cb fs evs)
  /\
  (call_shell E "git status --porcelain" <> "" ->
   __init__ E None cb fs =
     constructed E "dev" cb fs [GitParseVersion None; Shell "git status --porcelain"]).
Proof.
  intros Hdev. rewrite init_run. unfold resolve, queries. rewrite Hdev.
  split; intros Hst.
  - rewrite Hst. reflexivity.
  - apply String.eqb_neq in Hst. rewrite Hst. reflexivity.
Qed.

(** C2. When no token is left after the fallback, construction exits
    with status 1 and whatever the caller meant to do with the builder
    ([build], hence [create_dist], [build_dist] and [package_dist]) does
    not run: the file system is the one before, and the only events are
    the read-only queries and the error record. *)
Theorem unresolved_version_aborts {A : Type} (version : option string)
        (cb : option effect) (k : AddonBuilder -> M A) (fs : node) :
  resolve E version = "" ->
  let r := (self <- __init__ E version cb ;; k self) fs in
  out r = Raise (SystemExit 1) /\
  fs_of r = fs /\
  events r = (queries E version ++
              [Log ERROR "Error: Version could not be determined through Git"])%list /\
  Forall (fun e => mutating e = false) (events r).
Proof.
  intros Hres r.
  assert (Hr : r = Res (Raise (SystemExit 1)) fs
                 (queries E version ++
                  [Log ERROR "Error: Version could not be determined through Git"])%list).
  { subst r. rewrite (bind_raise _ _ _ (SystemExit 1));
      rewrite init_run, Hres; reflexivity. }
  rewrite Hr. cbn [out fs_of events].
  split; [reflexivity |]. split; [reflexivity |]. split; [reflexivity |].
  unfold queries.
  destruct ((parse_version E version =? "dev")
            && (call_shell E "git status --porcelain" =? ""));
    cbn; repeat constructor.
Qed.

End ResolutionFacts.

Lemma init_untagged_witness :
  __init__ Sample.clean None None Sample.fs =
    constructed Sample.clean "1.2.3" None Sample.fs
      [GitParseVersion None; Shell "git status --porcelain";
       GitParseVersion (Some "current"%string)]
  /\
  __init__ Sample.dirty None None Sample.fs =
    constructed Sample.dirty "dev" None Sample.fs
      [GitParseVersion None; Shell "git status --porcelain"].
Proof.
  split.
  - exact (proj1 (init_untagged Sample.clean None Sample.fs eq_refl) eq_refl).
  - refine (proj2 (init_untagged Sample.dirty None Sample.fs eq_refl) _).
    discriminate.
Defined.

Lemma unresolved_version_aborts_witness :
  let r := (self <- __init__ Sample.unversioned None None ;;
            build Sample.unversioned self [qt5; qt6] "local" None) Sample.fs in
  out r = Raise (SystemExit 1) /\
  fs_of r = Sample.fs /\
  events r = (queries Sample.unversioned None ++
              [Log ERROR "Error: Version could not be determined through Git"%string])%list /\
  Forall (fun e => mutating e = false) (events r).
Proof.
  exact (unresolved_version_aborts Sample.unversioned None None
           (fun self => build Sample.unversioned self [qt5; qt6] "local"%string None)
           Sample.fs eq_refl).
Defined.

(** ** Running computations *)

Lemma ret_bind {A B} (a : A) (k : A -> M B) (fs : node) :
  bind (ret a) k fs = k a fs.
Proof. unfold bind, ret. cbn. now destruct (k a fs). Qed.

Lemma get_bind {B} (k : node -> M B) (fs : node) :
  bind get_fs k fs = k fs fs.
Proof. unfold bind, get_fs. cbn. now destruct (k fs fs). Qed.

Lemma bind_assoc {A B C} (m : M A) (k : A -> M B) (h : B -> M C) (fs : node) :
  bind (bind m k) h fs = bind m (fun a => bind (k a) h) fs.
Proof.
  unfold bind. cbn. destruct (out (m fs)); cbn; [| reflexivity].
  destruct (out (k a (fs_of (m fs)))); cbn; [| reflexivity].
  now rewrite app_assoc.
Qed.

Lemma bind_step {A B} (m : M A) (k : A -> M B) (fs fs1 fs2 : node)
      (a : A) (o : outcome B) (e1 e2 : list event) :
  m fs = Res (Ret a) fs1 e1 -> k a fs1 = Res o fs2 e2 ->
  bind m k fs = Res o fs2 (e1 ++ e2).
Proof. intros Hm Hk. unfold bind. now rewrite Hm; cbn; rewrite Hk. Qed.

Lemma bind_fail {A B} (m : M A) (k : A -> M B) (fs fs1 : node)
      (e : exn) (e1 : list event) :
  m fs = Res (Raise e) fs1 e1 -> bind m k fs = Res (Raise e) fs1 e1.
Proof. intros Hm. unfold bind. now rewrite Hm. Qed.

Lemma finally_step {A} (m : M A) (fin : M unit) (fs fs1 fs2 : node)
      (o : outcome A) (e1 e2 : list event) :
  m fs = Res o fs1 e1 -> fin fs1 = Res (Ret tt) fs2 e2 ->
  finally m fin fs = Res o fs2 (e1 ++ e2).
Proof. intros Hm Hf. unfold finally. now rewrite Hm; cbn; rewrite Hf. Qed.

Lemma bind_ext {A B} (m : M A) (k k' : A -> M B) (fs : node) :
  (forall a fs', k a fs' = k' a fs') -> bind m k fs = bind m k' fs.
Proof. intros H. unfold bind. destruct (out (m fs)); [now rewrite H | reflexivity]. Qed.

Lemma call_run (ev : event) (f : effect) (fs : node) :
  call ev f fs = Res (fst (f fs)) (snd (f fs)) [ev].
Proof. unfold call. now destruct (f fs). Qed.

Lemma for_app {A} (l1 l2 : list A) (f : A -> M unit) (fs : node) :
  for_ (l1 ++ l2) f fs = (for_ l1 f ;; for_ l2 f) fs.
Proof.
  revert fs. induction l1 as [| x l1 IH]; intros fs; cbn [for_ app].
  - now rewrite ret_bind.
  - rewrite bind_assoc. apply bind_ext. intros _ fs'. apply IH.
Qed.

Lemma for_nested (walked : list (string * list string * list (string * node)))
      (h : string -> node -> M unit) (fs : node) :
  for_ walked (fun '(root, _, files) =>
                 for_ files (fun '(file, src) => h (os_path_join root file) src)) fs =
  for_ (loop_items walked) (fun '(path, src) => h path src) fs.
Proof.
  revert fs. induction walked as [| [[root dirs] files] walked IH]; intros fs;
    [reflexivity |].
  cbn [for_ loop_items flat_map]. rewrite for_app.
  assert (Hin : forall fs',
             for_ files (fun '(file, src) => h (os_path_join root file) src) fs' =
             for_ (map (fun f => (os_path_join root (fst f), snd f)) files)
                  (fun '(path, src) => h path src) fs').
  { clear. induction files as [| [file src] files IHf]; intros fs'; [reflexivity |].
    cbn [for_ map fst snd]. apply bind_ext. intros _ fs''. apply IHf. }
  rewrite !bind_run, Hin.
  destruct (out _); [| reflexivity].
  now rewrite IH.
Qed.

(** ** The walk *)

Lemma loop_items_app (w1 w2 : list (string * list string * list (string * node))) :
  loop_items (w1 ++ w2) = loop_items w1 ++ loop_items w2.
Proof. apply flat_map_app. Qed.

(** Every path the loop visits is the walked root, a separator, and the
    path of the file relative to the root. *)
Lemma walk_items (n : node) :
  valid_names n = true ->
  forall root : string,
    root <> ""%string -> Str.ends_with_slash root = false ->
    loop_items (os_walk root n) =
    map (fun f => (root +:+ "/" +:+ fst f, snd f)) (rel_files n).
Proof.
  induction n as [r c | es IH] using node_rect'; intros Hnames root Hroot Hend;
    [reflexivity |].
  cbn [os_walk rel_files valid_names] in *.
  cbn [loop_items flat_map]. fold (loop_items). rewrite map_app. f_equal.
  - unfold walk_files.
    clear IH. induction es as [| [x c] es IHes]; [reflexivity |].
    cbn [forallb] in Hnames. apply andb_true_iff in Hnames as [Hx Hes].
    apply andb_true_iff in Hx as [Hx _].
    cbn [filter snd]. destruct (negb (is_dir_node c)); cbn [map fst snd].
    + rewrite os_path_join_entry by assumption. f_equal. now apply IHes.
    + now apply IHes.
  - change (flat_map _ (flat_map ?g es)) with (loop_items (flat_map g es)).
    induction es as [| [d child] es IHes]; [reflexivity |].
    cbn [forallb] in Hnames. apply andb_true_iff in Hnames as [Hd Hes].
    apply andb_true_iff in Hd as [Hd Hchild].
    inversion IH as [| ? ? IHchild IHrest]; subst.
    cbn [flat_map]. rewrite loop_items_app, map_app. f_equal.
    + destruct (is_dir_node child); [| reflexivity].
      cbn [snd] in IHchild.
      destruct (os_path_join_root root d Hroot Hend Hd) as [Hr' He'].
      rewrite (IHchild Hchild _ Hr' He'), map_map.
      apply map_ext. intros [f src]. cbn [fst snd].
      rewrite os_path_join_entry by assumption.
      now rewrite !append_assoc.
    + now apply IHes.
Qed.

(** ** Writing the archive *)

Lemma zip_write_run (p : path) (filename arcname : string) (c : content)
      (r : bool) (es : list (string * content)) (fs : node) :
  FS.lookup p fs = Some (File r (Zip false es)) ->
  exists fs',
    FS.put p (File r (Zip false (es ++ [(arcname, c)]))) fs = Some fs' /\
    zip_write p filename arcname (File true c) fs =
      Res (Ret tt) fs' [ZipWrite p filename arcname].
Proof.
  intros Hl.
  destruct (put_present p (File r (Zip false (es ++ [(arcname, c)]))) fs _ Hl)
    as [fs' Hput].
  exists fs'. split; [exact Hput |].
  unfold zip_write, bind, emit, get_fs, set_fs. cbn. rewrite Hl, Hput. reflexivity.
Qed.

Lemma zip_write_refused (p : path) (filename arcname : string) (src fs : node) :
  readable src = false ->
  zip_write p filename arcname src fs =
    Res (Raise (OSError filename)) fs [ZipWrite p filename arcname].
Proof.
  intros Hr. unfold zip_write, bind, emit, raise. cbn.
  destruct src as [[|] c | es]; [discriminate | reflexivity | reflexivity].
Qed.

Lemma drop_root (top rel : string) :
  Str.drop (String.length top + 1) (top +:+ "/" +:+ rel) = rel.
Proof.
  rewrite <- append_assoc.
  replace (String.length top + 1) with (String.length (top +:+ "/"))
    by (rewrite length_append; reflexivity).
  apply drop_append.
Qed.

(** The loop over the files [fl] of the tree at [top], on an archive
    open at [p] that holds [es]: the files up to the first unreadable one
    become members, in order, and that one raises. *)
Lemma zip_loop (p : path) (top : string) (fl : list (string * node)) :
  forall (fs : node) (r : bool) (es : list (string * content)),
    FS.lookup p fs = Some (File r (Zip false es)) ->
    exists fs',
      FS.lookup p fs' = Some (File r (Zip false (es ++ map member (written fl)))) /\
      (forall v, FS.put p v fs' = FS.put p v fs) /\
      for_ (map (fun f => (top +:+ "/" +:+ fst f, snd f)) fl)
           (fun '(path, src) =>
              zip_write p path (Str.drop (String.length top + 1) path) src) fs =
        Res (match refused fl with
             | Some f => Raise (OSError (top +:+ "/" +:+ fst f))
             | None => Ret tt
             end)
            fs'
            (map (fun f => ZipWrite p (top +:+ "/" +:+ fst f) (fst f)) (written fl) ++
             match refused fl with
             | Some f => [ZipWrite p (top +:+ "/" +:+ fst f) (fst f)]
             | None => []
             end).
Proof.
  induction fl as [| [rel src] fl IH]; intros fs r es Hl.
  - exists fs. cbn. rewrite app_nil_r. auto.
  - cbn [map fst snd for_ written refused].
    destruct (readable src) eqn:Hsrc.
    + destruct src as [[|] c | ?]; try discriminate.
      rewrite drop_root.
      destruct (zip_write_run p (top +:+ "/" +:+ rel) rel c r es fs Hl)
        as (fs1 & Hput1 & Hrun1).
      destruct (IH fs1 r (es ++ [(rel, c)]) (lookup_put_same _ _ _ _ Hput1))
        as (fs' & Hl' & Hput' & Hrun').
      exists fs'. split; [| split].
      * rewrite Hl'. cbn [map member fst snd content_of].
        now rewrite <- app_assoc.
      * intros v. rewrite Hput'. apply (put_put _ _ _ _ _ Hput1).
      * erewrite bind_step by eassumption. reflexivity.
    + exists fs. split; [| split].
      * cbn. now rewrite app_nil_r.
      * reflexivity.
      * rewrite drop_root.
        erewrite bind_fail by (apply zip_write_refused; exact Hsrc).
        reflexivity.
Qed.

Lemma joinpath_nonempty (p : path) (s : string) : p <> [] -> p // s <> [].
Proof.
  unfold joinpath. intros Hp. destruct (s =? "")%string; [exact Hp |].
  destruct p; [contradiction | discriminate].
Qed.

Lemma joinpath_name (p : path) (s : string) : s <> ""%string -> p // s = p ++ [s].
Proof. unfold joinpath. intros Hs. apply String.eqb_neq in Hs. now rewrite Hs. Qed.

Lemma str_not_empty (p : path) : str p <> ""%string.
Proof. destruct p; discriminate. Qed.

(** The body of the [with] block of [_package], on the file system [fs]
    in which the output path is free or a regular file. *)
Lemma with_ZipFile_run (out_path to_zip : path) (fs : node) :
  out_path <> [] ->
  FS.is_dir (parent out_path) fs = true ->
  FS.is_dir out_path fs = false ->
  diverge out_path to_zip = true ->
  Str.ends_with_slash (str to_zip) = false ->
  match FS.lookup to_zip fs with Some n => valid_names n | None => true end = true ->
  let fl := subtree_files to_zip fs in
  exists fs',
    with_ZipFile out_path (
      let rootlen := String.length (str to_zip) + 1 in
      fs <- get_fs ;;
      let walked := match FS.lookup to_zip fs with
                    | Some n => os_walk (str to_zip) n
                    | None => []
                    end in
      for_ walked (fun '(root, dirs, files) =>
        for_ files (fun '(file, src) =>
          let path := os_path_join root file in
          zip_write out_path path (Str.drop rootlen path) src))) fs =
    Res (match refused fl with
         | Some f => Raise (OSError (str to_zip +:+ "/" +:+ fst f))
         | None => Ret tt
         end)
        fs'
        ([ZipOpen out_path] ++
         (map (write_of out_path to_zip) (written fl) ++
          match refused fl with
          | Some f => [write_of out_path to_zip f]
          | None => []
          end) ++ [ZipClose out_path]) /\
    FS.put out_path (File true (Zip true (map member (written fl)))) fs = Some fs'.
Proof.
  intros Hne Hparent Hnotdir Hdiv Hend Hnames fl.
  destruct (put_in_dir out_path (File true (Zip false [])) fs Hne Hparent)
    as [fs1 Hput1].
  assert (Hopen : zip_open out_path fs = Res (Ret tt) fs1 [ZipOpen out_path]).
  { unfold zip_open, bind, emit, get_fs, set_fs, raise. cbn.
    rewrite Hnotdir, Hput1. reflexivity. }
  assert (Hsub : FS.lookup to_zip fs1 = FS.lookup to_zip fs)
    by exact (lookup_put_diverge _ _ _ _ _ Hdiv Hput1).
  destruct (zip_loop out_path (str to_zip) fl fs1 true []
              (lookup_put_same _ _ _ _ Hput1)) as (fs2 & Hl2 & Hput2 & Hloop).
  cbn [app] in Hl2.
  destruct (put_present out_path (File true (Zip true (map member (written fl))))
              fs2 _ Hl2) as [fs3 Hput3].
  assert (Hclose : zip_close out_path fs2 = Res (Ret tt) fs3 [ZipClose out_path]).
  { unfold zip_close, bind, emit, get_fs, set_fs, raise. cbn.
    rewrite Hl2, Hput3. reflexivity. }
  exists fs3. split.
  - unfold with_ZipFile. eapply bind_step; [exact Hopen |].
    eapply finally_step; [| exact Hclose].
    rewrite bind_run. cbn [get_fs out fs_of events app]. rewrite Hsub.
    rewrite for_nested with
      (h := fun path src =>
              zip_write out_path path
                (Str.drop (String.length (str to_zip) + 1) path) src).
    assert (Hitems :
              loop_items (match FS.lookup to_zip fs with
                          | Some n => os_walk (str to_zip) n
                          | None => []
                          end) =
              map (fun f => (str to_zip +:+ "/" +:+ fst f, snd f)) fl).
    { subst fl. unfold subtree_files.
      destruct (FS.lookup to_zip fs) as [n |]; [| reflexivity].
      apply walk_items; [exact Hnames | apply str_not_empty | exact Hend]. }
    rewrite Hitems, Hloop. reflexivity.
  - rewrite <- Hput3, Hput2. symmetry. apply (put_put _ _ _ _ _ Hput1).
Qed.

(** ** Relative paths *)

Lemma lookup_app (p q : path) (fs : node) :
  FS.lookup (p ++ q) fs =
  match FS.lookup p fs with
  | Some n => FS.lookup q n
  | None => None
  end.
Proof.
  revert fs. induction p as [| x p IH]; intros fs; [reflexivity |].
  cbn [app FS.lookup]. destruct fs as [| es]; [reflexivity |].
  destruct (assoc x es); [apply IH | reflexivity].
Qed.

Lemma assoc_In {A} (k : string) (v : A) (l : list (string * A)) :
  assoc k l = Some v -> In (k, v) l.
Proof.
  induction l as [| [k' v'] l IH]; cbn; [discriminate |].
  destruct (String.eqb_spec k k') as [-> | _].
  - intros [= ->]. now left.
  - intros H. right. now apply IH.
Qed.

Lemma In_assoc {A} (k : string) (v : A) (l : list (string * A)) :
  nodup_names (map fst l) = true -> In (k, v) l -> assoc k l = Some v.
Proof.
  induction l as [| [k' v'] l IH]; cbn [map fst nodup_names assoc]; [contradiction |].
  intros Hnd Hin. apply andb_true_iff in Hnd as [Hfresh Hnd].
  destruct Hin as [[= -> ->] | Hin].
  - now rewrite String.eqb_refl.
  - destruct (String.eqb_spec k k') as [-> | _]; [| now apply IH].
    apply negb_true_iff in Hfresh.
    assert (Hex : existsb (String.eqb k') (map fst l) = true).
    { apply existsb_exists. exists k'. split; [| apply String.eqb_refl].
      apply in_map_iff. now exists (k', v). }
    congruence.
Qed.

(** Every file below a directory is among its files, under the
    components of its path joined by the separator. *)
Lemma rel_files_complete (q : path) :
  forall (n : node) (r : bool) (c : content),
    q <> [] -> FS.lookup q n = Some (File r c) ->
    In (Str.join "/" q, File r c) (rel_files n).
Proof.
  induction q as [| x q IH]; intros n r c Hq; [contradiction |].
  cbn [FS.lookup]. destruct n as [| es]; [discriminate |].
  destruct (assoc x es) as [child |] eqn:Hx; [| discriminate].
  apply assoc_In in Hx. cbn [rel_files]. intros Hl. apply in_or_app.
  destruct q as [| y q].
  - left. cbn in Hl. injection Hl as ->. cbn [Str.join String.concat].
    unfold walk_files. apply filter_In. now split.
  - right. apply in_flat_map. exists (x, child). split; [exact Hx |].
    destruct child as [| es']; [discriminate |]. cbn [is_dir_node].
    apply in_map_iff. exists (Str.join "/" (y :: q), File r c).
    split; [reflexivity |]. apply IH; [discriminate | exact Hl].
Qed.

(** And every one of its files is a file below it, at the path of which
    its name is the join. *)
Lemma rel_files_sound (n : node) :
  distinct_names n = true ->
  forall (rel : string) (f : node),
    In (rel, f) (rel_files n) ->
    exists q, q <> [] /\ rel = Str.join "/" q /\ FS.lookup q n = Some f /\
              is_dir_node f = false.
Proof.
  induction n as [r c | es IH] using node_rect'; intros Hd rel f Hin;
    [contradiction |].
  cbn [distinct_names] in Hd. apply andb_true_iff in Hd as [Hnd Hsub].
  cbn [rel_files] in Hin. apply in_app_or in Hin as [Hin | Hin].
  - unfold walk_files in Hin. apply filter_In in Hin as [Hin Hfile].
    exists [rel]. split; [discriminate |]. split; [reflexivity |].
    cbn [FS.lookup]. rewrite (In_assoc _ _ _ Hnd Hin).
    split; [reflexivity |]. now apply negb_true_iff in Hfile.
  - apply in_flat_map in Hin as ([d child] & Hchild & Hin).
    destruct (is_dir_node child) eqn:Hdir; [| contradiction].
    apply in_map_iff in Hin as ([rel' f'] & [= <- <-] & Hin).
    pose proof (proj1 (Forall_forall _ _) IH _ Hchild) as IHchild.
    pose proof (proj1 (forallb_forall _ _) Hsub _ Hchild) as Hdc.
    cbn [snd] in IHchild. cbn beta iota in Hdc.
    destruct (IHchild Hdc rel' f' Hin) as (q & Hq & -> & Hl & Hf).
    exists (d :: q). split; [discriminate |]. split; [| split].
    + destruct q; [contradiction | reflexivity].
    + cbn [FS.lookup]. now rewrite (In_assoc _ _ _ Hnd Hchild).
    + exact Hf.
Qed.

Section Packaging.

Variable E : Env.

Lemma out_path_not_root (self : AddonBuilder) (qts : list QtVersion) (dt : string) :
  out_path_of E self qts dt <> [].
Proof.
  unfold out_path_of. apply joinpath_nonempty.
  rewrite joinpath_name by discriminate. now destruct (PATH_ROOT E).
Qed.

(** A run of [_package] when the output directory exists and the output
    path is not a directory: the archive that is left at the output path
    is closed and holds the files up to the first unreadable one. *)
Lemma package_run (self : AddonBuilder) (qts : list QtVersion) (dt : string)
      (fs : node) :
  let to_zip := _path_dist_module self in
  let out_path := out_path_of E self qts dt in
  let fl := subtree_files to_zip fs in
  FS.is_dir (parent out_path) fs = true ->
  FS.is_dir out_path fs = false ->
  diverge out_path to_zip = true ->
  Str.ends_with_slash (str to_zip) = false ->
  match FS.lookup to_zip fs with Some n => valid_names n | None => true end = true ->
  exists fs',
    _package E self qts dt fs =
      Res (package_outcome out_path to_zip fl) fs'
          (package_events out_path to_zip
             (out_name (repo_name (_config self)) (_version self) qts dt)
             (FS.exists_ out_path fs) fl) /\
    FS.put out_path (File true (Zip true (map member (written fl))))
           (cleared out_path fs) = Some fs'.
Proof.
  intros to_zip out_path fl Hparent Hnotdir Hdiv Hend Hnames.
  pose proof (out_path_not_root self qts dt) as Hne. fold out_path in Hne.
  set (fs0 := cleared out_path fs).
  assert (Hclear :
            (if FS.exists_ out_path fs then unlink out_path else ret tt) fs =
            Res (Ret tt) fs0 (if FS.exists_ out_path fs then [Unlink out_path] else [])).
  { subst fs0. unfold cleared, FS.exists_, FS.is_dir in *.
    destruct (FS.lookup out_path fs) as [[r c | es] |] eqn:Hl;
      [| discriminate | reflexivity].
    unfold unlink, bind, emit, get_fs, set_fs. cbn. rewrite Hl. reflexivity. }
  assert (Hsub0 : FS.lookup to_zip fs0 = FS.lookup to_zip fs).
  { subst fs0. unfold cleared. destruct (FS.exists_ out_path fs); [| reflexivity].
    now apply lookup_remove_diverge. }
  assert (Hparent0 : FS.is_dir (parent out_path) fs0 = true).
  { subst fs0. unfold cleared. destruct (FS.exists_ out_path fs); [| exact Hparent].
    now rewrite parent_remove. }
  assert (Hnotdir0 : FS.is_dir out_path fs0 = false).
  { subst fs0. unfold cleared. destruct (FS.exists_ out_path fs); [| exact Hnotdir].
    unfold FS.is_dir. now rewrite lookup_remove_same. }
  assert (Hfl : subtree_files to_zip fs0 = fl).
  { subst fl. unfold subtree_files. now rewrite Hsub0. }
  destruct (with_ZipFile_run out_path to_zip fs0 Hne Hparent0 Hnotdir0 Hdiv Hend)
    as (fs' & Hzip & Hput).
  { now rewrite Hsub0. }
  rewrite Hfl in Hzip, Hput.
  exists fs'. split; [| exact Hput].
  unfold _package. fold to_zip. fold (out_path_of E self qts dt). fold out_path.
  unfold package_outcome, package_events.
  destruct (refused fl) as [f |].
  - eapply eq_trans.
    { eapply bind_step; [reflexivity |].
      eapply bind_step; [reflexivity |].
      eapply bind_step; [exact Hclear |].
      eapply bind_fail. exact Hzip. }
    f_equal. destruct (FS.exists_ out_path fs); cbn [app]; f_equal;
      rewrite <- ?app_assoc; reflexivity.
  - eapply eq_trans.
    { eapply bind_step; [reflexivity |].
      eapply bind_step; [reflexivity |].
      eapply bind_step; [exact Hclear |].
      eapply bind_step; [exact Hzip |]. reflexivity. }
    f_equal. destruct (FS.exists_ out_path fs); cbn [app]; f_equal;
      rewrite <- ?app_assoc; reflexivity.
Qed.

End Packaging.

Lemma written_all (fl : list (string * node)) :
  forallb (fun f => readable (snd f)) fl = true ->
  written fl = fl /\ refused fl = None.
Proof.
  induction fl as [| f fl IH]; cbn; [auto |].
  intros H. apply andb_true_iff in H as [Hf Hfl]. rewrite Hf.
  destruct (IH Hfl) as [-> ->]. auto.
Qed.

Lemma bind_ret_inv {A B} (m : M A) (k : A -> M B) (fs : node) (b : B) :
  out (bind m k fs) = Ret b ->
  exists a, out (m fs) = Ret a /\ out (k a (fs_of (m fs))) = Ret b.
Proof.
  rewrite bind_run. destruct (out (m fs)) as [a | e]; cbn; [eauto | discriminate].
Qed.

Lemma append_not_empty (a b : string) : b <> ""%string -> a +:+ b <> ""%string.
Proof. intros Hb. destruct a; [exact Hb | discriminate]. Qed.

Lemma out_name_not_empty (repo version : string) (qts : list QtVersion) (dt : string) :
  out_name repo version qts dt <> ""%string.
Proof. unfold out_name. apply append_not_empty. discriminate. Qed.

Lemma out_path_parts (E : Env) (self : AddonBuilder) (qts : list QtVersion)
      (dt : string) :
  out_path_of E self qts dt =
  PATH_ROOT E ++ ["build"%string;
                  out_name (repo_name (_config self)) (_version self) qts dt].
Proof.
  unfold out_path_of.
  rewrite (joinpath_name _ _ (out_name_not_empty _ _ _ _)).
  rewrite joinpath_name by discriminate.
  now rewrite <- app_assoc.
Qed.

(** ** Packaging: the claims *)

Section PackagingClaims.

Variable E : Env.

Local Open Scope string_scope.



(** C5. When a regular file is at the output path, [_package] unlinks it
    before it opens the archive; a run that reaches its end leaves there a
    closed archive of the module subtree as it is now, put on the file
    system from which the old file is gone.  Whatever the old file held,
    the run returns and leaves the same file system. *)
Theorem package_overwrites (self : AddonBuilder) (qts : list QtVersion) (dt : string)
        (fs : node) (r0 : bool) (old : content) :
  let to_zip := _path_dist_module self in
  let out_path := out_path_of E self qts dt in
  let fl := subtree_files to_zip fs in
  FS.lookup out_path fs = Some (File r0 old) ->
  FS.is_dir (parent out_path) fs = true ->
  diverge out_path to_zip = true ->
  Str.ends_with_slash (str to_zip) = false ->
  match FS.lookup to_zip fs with Some n => valid_names n | None => true end = true ->
  forallb (fun f => readable (snd f)) fl = true ->
  let r := _package E self qts dt fs in
  out r = Ret out_path /\
  (exists writes,
      events r = ([Log INFO "Packaging add-on..."; Unlink out_path; ZipOpen out_path]
                  ++ writes ++
                  [ZipClose out_path;
                   Log INFO ("Package saved as " +:+
                             out_name (repo_name (_config self)) (_version self) qts dt);
                   Log INFO "Done."])%list /\
      writes = map (write_of out_path to_zip) fl) /\
  FS.put out_path (File true (Zip true (map member fl))) (FS.remove out_path fs)
    = Some (fs_of r) /\
  FS.lookup out_path (fs_of r) = Some (File true (Zip true (map member fl))) /\
  (forall r1 old1 fs1,
      FS.put out_path (File r1 old1) fs = Some fs1 ->
      out (_package E self qts dt fs1) = Ret out_path /\
      fs_of (_package E self qts dt fs1) = fs_of r).
Proof.
  intros to_zip out_path fl Hold Hparent Hdiv Hend Hnames Hread r.
  assert (Hother : forall r1 old1 fs1,
             FS.put out_path (File r1 old1) fs = Some fs1 ->
             forall fs', FS.put out_path (File true (Zip true (map member fl)))
                                (FS.remove out_path fs) = Some fs' ->
             out (_package E self qts dt fs1) = Ret out_path /\
             fs_of (_package E self qts dt fs1) = fs').
  { intros r1 old1 fs1 Hput1 fs' Hput'.
    pose proof (lookup_put_same _ _ _ _ Hput1) as Hold1.
    pose proof (lookup_put_diverge _ _ _ _ _ Hdiv Hput1) as Hsub1.
    assert (Hparent1 : FS.is_dir (parent out_path) fs1 = true).
    { revert Hput1. unfold out_path. rewrite out_path_parts.
      change (PATH_ROOT E ++ ["build"; ?n])%list
        with (PATH_ROOT E ++ ["build"] ++ [n])%list.
      rewrite app_assoc, parent_snoc. apply put_keeps_parent. }
    destruct (package_run E self qts dt fs1) as (fs1' & Hrun1 & Hput1').
    { exact Hparent1. }
    { fold out_path. unfold FS.is_dir. now rewrite Hold1. }
    { exact Hdiv. }
    { exact Hend. }
    { fold to_zip. now rewrite Hsub1. }
    fold to_zip out_path in Hrun1, Hput1'.
    assert (Hfl1 : subtree_files to_zip fs1 = fl)
      by (subst fl; unfold subtree_files; now rewrite Hsub1).
    rewrite Hfl1 in Hrun1, Hput1'.
    destruct (written_all fl Hread) as [Hw Hr].
    unfold package_outcome in Hrun1. rewrite Hr in Hrun1.
    unfold cleared, FS.exists_ in Hput1'. rewrite Hold1, Hw in Hput1'.
    rewrite (remove_put out_path _ _ _ (out_path_not_root E self qts dt) Hput1)
      in Hput1'.
    rewrite Hrun1. cbn [out fs_of]. split; [reflexivity | congruence]. }
  assert (Hnotdir : FS.is_dir out_path fs = false)
    by (unfold FS.is_dir; now rewrite Hold).
  assert (Hthere : FS.exists_ out_path fs = true)
    by (unfold FS.exists_; now rewrite Hold).
  destruct (package_run E self qts dt fs Hparent Hnotdir Hdiv Hend Hnames)
    as (fs' & Hrun & Hput).
  fold to_zip out_path fl in Hrun, Hput.
  destruct (written_all fl Hread) as [Hw Hr].
  unfold package_outcome, package_events, cleared in Hrun, Hput.
  rewrite Hw, Hr, Hthere in Hrun. rewrite Hw, Hthere in Hput.
  subst r. rewrite Hrun. cbn [out fs_of events].
  split; [reflexivity |]. split; [| split; [| split]].
  - exists (map (write_of out_path to_zip) fl). split; reflexivity.
  - exact Hput.
  - exact (lookup_put_same _ _ _ _ Hput).
  - intros r1 old1 fs1 Hput1. exact (Hother r1 old1 fs1 Hput1 fs' Hput).
Qed.



End PackagingClaims.


Lemma package_overwrites_witness :
  out (_package Sample.clean (Sample.builder "1.2.3") [qt5; qt6] "local"
         SampleRuns.rebuilt) =
    Ret ["repo"; "build"; "foo-1.2.3-qt5+qt6.ankiaddon"]%string /\
  FS.lookup ["repo"; "build"; "foo-1.2.3-qt5+qt6.ankiaddon"]%string
    (fs_of (_package Sample.clean (Sample.builder "1.2.3") [qt5; qt6] "local"
              SampleRuns.rebuilt)) =
    Some (File true (Zip true [("a.py", Bytes "A"); ("sub/b.py", Bytes "B")]%string)).
Proof.
  destruct (package_overwrites Sample.clean (Sample.builder "1.2.3") [qt5; qt6]
              "local"%string SampleRuns.rebuilt true (Bytes "stale")
              eq_refl eq_refl eq_refl eq_refl eq_refl eq_refl)
    as (Hout & _ & _ & Hfile & _).
  split; [exact Hout | exact Hfile].
Defined.




(** ** Cleaning and export *)

Lemma bind_events {A B} (m : M A) (k : A -> M B) (fs : node) :
  exists rest, events (bind m k fs) = events (m fs) ++ rest.
Proof.
  rewrite bind_run. destruct (out (m fs)); cbn [events]; [eauto |].
  exists []. now rewrite app_nil_r.
Qed.

Lemma mkdirs_fresh (p : path) (fs fs' : node) :
  FS.exists_ p fs = false -> FS.mkdirs p fs = Some fs' ->
  FS.lookup p fs' = Some (Dir []).
Proof.
  unfold FS.exists_.
  revert fs fs'. induction p as [| x p IH]; intros fs fs'; [discriminate |].
  cbn [FS.lookup FS.mkdirs]. destruct fs as [| es]; [discriminate |].
  intros Habs Hmk.
  destruct (FS.mkdirs p match assoc x es with Some c => c | None => Dir [] end)
    as [c' |] eqn:Hc'; [| discriminate].
  injection Hmk as <-. cbn [FS.lookup]. rewrite assoc_set_same.
  destruct p as [| y p].
  - destruct (assoc x es); [discriminate |]. cbn in Hc'. now injection Hc' as <-.
  - eapply IH; [| exact Hc'].
    destruct (assoc x es); [exact Habs | reflexivity].
Qed.

Section Cleaning.

Variable E : Env.

Local Open Scope string_scope.

(** [clean_repo] when the working area is absent or a directory: it is
    removed if it is there, and the purge runs in either case. *)
Lemma clean_repo_run (fs : node) :
  (FS.exists_ (PATH_DIST E) fs = true -> FS.is_dir (PATH_DIST E) fs = true) ->
  clean_repo E fs =
    Res (fst (purge E "." _trash_patterns true (cleared (PATH_DIST E) fs)))
        (snd (purge E "." _trash_patterns true (cleared (PATH_DIST E) fs)))
        ([Log INFO "Cleaning repository..."] ++
         (if FS.exists_ (PATH_DIST E) fs then [Rmtree (PATH_DIST E)] else []) ++
         [Purge "." _trash_patterns true])%list.
Proof.
  intros Hdir. unfold clean_repo, cleared, FS.exists_, FS.is_dir in *.
  unfold bind, logging, emit, exists_, get_fs, ret, rmtree, set_fs, call, FS.exists_.
  cbn.
  destruct (FS.lookup (PATH_DIST E) fs) as [[r c | es] |] eqn:Hl; cbn.
  - specialize (Hdir eq_refl). discriminate.
  - rewrite Hl. cbn. now destruct (purge E "." _trash_patterns true _).
  - now destruct (purge E "." _trash_patterns true _).
Qed.

(** C9. A build logs its banner and then runs [create_dist], which
    starts by cleaning: the working area [PATH_DIST], when it is there,
    is removed, and the purge of the trash patterns below ["."] is called
    whether it was there or not.  When the purge returns, the working
    area is made afresh, as an empty directory, and only then is the tree
    exported into it. *)
Theorem build_cleans_first (self : AddonBuilder) (qts : list QtVersion)
        (dt : string) (pyenv : option string) (fs : node) :
  let dist := PATH_DIST E in
  let there := FS.exists_ dist fs in
  let purged := purge E "." ["*.pyc"; "*.pyo"; "__pycache__"] true (cleared dist fs) in
  let banner :=
    Log INFO (Str.nl +:+ "--- Building " +:+ display_name (_config self) +:+ " "
              +:+ _version self +:+ " for " +:+ dt +:+ " ---" +:+ Str.nl) in
  let cleaning :=
    ([Log INFO ("Preparing source tree for " +:+ display_name (_config self)
                +:+ " " +:+ _version self +:+ " ...");
      Log INFO "Cleaning repository..."] ++
     (if there then [Rmtree dist] else []) ++
     [Purge "." ["*.pyc"; "*.pyo"; "__pycache__"] true])%list in
  (there = true -> FS.is_dir dist fs = true) ->
  (exists rest,
      events (build E self qts dt pyenv fs) = (banner :: cleaning ++ rest)%list) /\
  (forall fs2,
      fst purged = Ret tt ->
      FS.exists_ dist (snd purged) = false ->
      FS.mkdirs dist (snd purged) = Some fs2 ->
      FS.lookup dist fs2 = Some (Dir []) /\
      create_dist E self fs =
        Res (fst (archive E (_version self) dist fs2))
            (snd (archive E (_version self) dist fs2))
            (cleaning ++ [Mkdir dist; GitArchive (_version self) dist])%list).
Proof.
  intros dist there purged banner cleaning Hdir.
  pose proof (clean_repo_run fs Hdir) as Hclean.
  fold dist there in Hclean. change _trash_patterns
    with ["*.pyc"; "*.pyo"; "__pycache__"] in Hclean. fold purged in Hclean.
  split.
  - unfold build.
    destruct (bind_events (create_dist E self)
                (fun _ => build_dist E self qts dt pyenv ;; package_dist E self qts dt)
                fs) as [rest1 Hrest1].
    assert (Hcreate : exists rest2, events (create_dist E self fs) = (cleaning ++ rest2)%list).
    { unfold create_dist. rewrite bind_run. cbn [logging emit out fs_of events].
      destruct (bind_events (clean_repo E)
                  (fun _ => mkdir_parents (PATH_DIST E) ;;
                            call (GitArchive (_version self) (PATH_DIST E))
                                 (archive E (_version self) (PATH_DIST E))) fs)
        as [rest2 Hrest2].
      rewrite Hrest2, Hclean. cbn [events]. exists rest2.
      subst cleaning. cbn [app]. now rewrite <- !app_assoc. }
    destruct Hcreate as [rest2 Hrest2].
    rewrite bind_run. cbn [logging emit out fs_of events].
    rewrite Hrest1, Hrest2. exists (rest2 ++ rest1)%list.
    subst banner. cbn [app]. now rewrite <- app_assoc.
  - intros fs2 Hok Hfree Hmk. split; [exact (mkdirs_fresh _ _ _ Hfree Hmk) |].
    assert (Hmkdir : mkdir_parents dist (snd purged) = Res (Ret tt) fs2 [Mkdir dist]).
    { unfold mkdir_parents, bind, emit, get_fs, set_fs. cbn.
      rewrite Hfree, Hmk. reflexivity. }
    unfold create_dist.
    eapply eq_trans.
    { eapply bind_step; [reflexivity |].
      eapply bind_step.
      { rewrite Hclean. rewrite Hok. reflexivity. }
      eapply bind_step; [exact Hmkdir |].
      apply call_run. }
    f_equal.
Qed.

End Cleaning.

Lemma build_cleans_first_witness :
  (exists rest,
      events (build Sample.clean (Sample.builder "1.2.3") [qt5; qt6] "local" None
                Sample.fs) =
      [Log INFO (Str.nl +:+ "--- Building Foo 1.2.3 for local ---" +:+ Str.nl);
       Log INFO "Preparing source tree for Foo 1.2.3 ...";
       Log INFO "Cleaning repository...";
       Rmtree ["repo"; "build"; "dist"]%string;
       Purge "." ["*.pyc"; "*.pyo"; "__pycache__"]%string true] ++ rest).
Proof.
  exact (proj1 (build_cleans_first Sample.clean (Sample.builder "1.2.3") [qt5; qt6]
                  "local"%string None Sample.fs (fun _ => eq_refl))).
Defined.

(** ** Augmentation *)

Lemma steps_app (a b : list event) : steps (a ++ b) = steps a ++ steps b.
Proof. apply flat_map_app. Qed.

Lemma exists_bind {B} (p : path) (k : bool -> M B) (fs : node) :
  (x <- exists_ p ;; k x) fs = k (FS.exists_ p fs) fs.
Proof.
  unfold exists_, bind, get_fs, ret. cbn. now destruct (k (FS.exists_ p fs) fs).
Qed.

Lemma keeps_exactly {A} (r : res A) (plan : list step) :
  steps (events r) = plan -> keeps_to r plan.
Proof. intros <-. split; [exists []; now rewrite app_nil_r | reflexivity]. Qed.

Lemma keeps_to_bind {A B} (m : M A) (k : A -> M B) (fs : node) (p1 p2 : list step) :
  keeps_to (m fs) p1 ->
  (forall a, out (m fs) = Ret a -> keeps_to (k a (fs_of (m fs))) p2) ->
  keeps_to (bind m k fs) (p1 ++ p2).
Proof.
  intros [[rest1 Hpre1] Hall1] Hk. rewrite bind_run. unfold keeps_to.
  destruct (out (m fs)) as [a | e] eqn:Hout.
  - specialize (Hall1 eq_refl). destruct (Hk a eq_refl) as [[rest2 Hpre2] Hall2].
    cbn [out events]. rewrite steps_app, Hall1. split.
    + exists rest2. now rewrite Hpre2 at 1; rewrite app_assoc.
    + intros Hok. now rewrite (Hall2 Hok).
  - cbn [out events succeeded]. split; [| discriminate].
    exists (rest1 ++ p2). now rewrite Hpre1 at 1; rewrite app_assoc.
Qed.

Lemma steps_bind_nil {A B} (m : M A) (k : A -> M B) (fs : node) :
  steps (events (m fs)) = [] ->
  (forall a fs', steps (events (k a fs')) = []) ->
  steps (events (bind m k fs)) = [].
Proof.
  intros Hm Hk. rewrite bind_run. destruct (out (m fs)); cbn [events]; [| exact Hm].
  now rewrite steps_app, Hm, Hk.
Qed.

Lemma steps_for_nil {A} (l : list A) (f : A -> M unit) :
  (forall x fs, steps (events (f x fs)) = []) ->
  forall fs, steps (events (for_ l f fs)) = [].
Proof.
  intros Hf. induction l as [| x l IH]; intros fs; [reflexivity |].
  cbn [for_]. apply steps_bind_nil; [apply Hf | intros _ fs'; apply IH].
Qed.

Lemma copy_to_events (src dst : path) (mode : option bool) (fs : node) :
  events (copy_to src dst mode fs) = [CopyFile src dst].
Proof.
  unfold copy_to, bind, emit, get_fs, set_fs, raise. cbn.
  destruct (path_eqb src dst); [reflexivity |].
  destruct (FS.lookup src fs) as [[[|] c | es] |]; try reflexivity.
  destruct (FS.is_dir dst fs); [reflexivity |].
  now destruct (FS.put dst _ fs).
Qed.

Section Augmentation.

Variable E : Env.

Local Open Scope string_scope.

Lemma copy_licenses_steps (self : AddonBuilder) (fs : node) :
  steps (events (_copy_licenses E self fs)) = [StepLicenses].
Proof.
  unfold _copy_licenses. rewrite bind_run. cbn [logging emit out fs_of events].
  rewrite steps_app. cbn [steps flat_map step_of String.eqb Ascii.eqb Bool.eqb app].
  f_equal. apply steps_for_nil. clear fs. intros dir fs.
  apply steps_bind_nil; [reflexivity |]. intros d fs'.
  destruct (negb d); [reflexivity |].
  apply steps_bind_nil.
  - unfold glob_prefix, bind, get_fs, ret. cbn.
    now destruct (FS.lookup dir fs') as [[|] |].
  - intros files fs''. apply steps_for_nil. intros file fs3.
    unfold copyfile. now rewrite copy_to_events.
Qed.

Lemma copy_changelog_steps (self : AddonBuilder) (fs : node) :
  steps (events (_copy_changelog E self fs)) = [StepChangelog].
Proof.
  unfold _copy_changelog. rewrite bind_run. cbn [logging emit out fs_of events].
  unfold copy. rewrite bind_run. cbn [get_fs out fs_of events app].
  now rewrite copy_to_events.
Qed.

Lemma copy_optional_icons_steps (self : AddonBuilder) (fs : node) :
  steps (events (_copy_optional_icons E self fs)) = [StepIcons].
Proof.
  unfold _copy_optional_icons. rewrite bind_run. cbn [logging emit out fs_of events].
  now rewrite call_run.
Qed.

Lemma compile_keeps_to (root : path) (pyenv : option string) (qts : list QtVersion)
      (fs : node) :
  keeps_to (for_ qts (fun qt => call (UIBuild root qt pyenv) (ui_build E root qt pyenv)) fs)
           (map (fun qt => StepCompile qt pyenv) qts).
Proof.
  revert fs. induction qts as [| qt qts IH]; intros fs.
  - now apply keeps_exactly.
  - cbn [for_ map].
    change (StepCompile qt pyenv :: map (fun qt => StepCompile qt pyenv) qts)
      with ([StepCompile qt pyenv] ++ map (fun qt => StepCompile qt pyenv) qts)%list.
    apply keeps_to_bind; [| intros _ _; apply IH].
    apply keeps_exactly. now rewrite call_run.
Qed.


End Augmentation.

(** ** License copy *)

Lemma diverge_app (l p q : path) : diverge (l ++ p) (l ++ q) = diverge p q.
Proof.
  induction l as [| x l IH]; [reflexivity |].
  cbn [app diverge]. now rewrite String.eqb_refl.
Qed.

Lemma diverge_irrefl (p : path) : diverge p p = false.
Proof.
  induction p as [| x p IH]; [reflexivity |].
  cbn [diverge]. now rewrite String.eqb_refl.
Qed.

Lemma diverge_siblings (m : path) (t t' : string) :
  t <> t' -> diverge (m ++ [t]) (m ++ [t']) = true.
Proof.
  intros Hne. rewrite diverge_app. cbn [diverge].
  apply String.eqb_neq in Hne. now rewrite Hne.
Qed.

Lemma path_eqb_diverge (p q : path) : diverge p q = true -> path_eqb q p = false.
Proof.
  intros Hd. unfold path_eqb. destruct (list_eq_dec string_dec q p) as [-> |];
    [| reflexivity].
  now rewrite diverge_irrefl in Hd.
Qed.

(** One copy into the directory [m]. *)
Lemma copyfile_run (s m : path) (t : string) (c : content) (fs : node) :
  FS.lookup s fs = Some (File true c) ->
  FS.is_dir m fs = true ->
  FS.is_dir (m ++ [t]) fs = false ->
  diverge (m ++ [t]) s = true ->
  exists fs' k,
    copyfile s (m ++ [t]) fs = Res (Ret tt) fs' [CopyFile s (m ++ [t])] /\
    FS.put (m ++ [t]) (File k c) fs = Some fs'.
Proof.
  intros Hs Hm Ht Hd.
  set (k := match FS.lookup (m ++ [t]) fs with Some (File r _) => r | _ => true end).
  destruct (put_in_dir (m ++ [t]) (File k c) fs) as [fs' Hput].
  { now destruct m. }
  { now rewrite parent_snoc. }
  exists fs', k. split; [| exact Hput].
  unfold copyfile, copy_to, bind, emit, get_fs, set_fs, raise. cbn.
  rewrite (path_eqb_diverge _ _ Hd), Hs, Ht. fold k. rewrite Hput. reflexivity.
Qed.

(** A run of copies into the directory [m], none of whose sources lies at
    or below a target: every copy is made, in order; what diverges from
    the targets is as before; and a target holds what the last source
    copied to it held. *)
Lemma copies_run (m : path) (cs : list (path * string)) :
  (forall s t s' t', In (s, t) cs -> In (s', t') cs -> diverge (m ++ [t]) s' = true) ->
  forall fs,
    (cs <> [] -> FS.is_dir m fs = true) ->
    (forall s t, In (s, t) cs ->
                 (exists c, FS.lookup s fs = Some (File true c)) /\
                 FS.is_dir (m ++ [t]) fs = false) ->
    exists fs',
      for_ cs (fun c => copyfile (fst c) (m ++ [snd c])) fs =
        Res (Ret tt) fs' (map (fun c => CopyFile (fst c) (m ++ [snd c])) cs) /\
      (FS.is_dir m fs = true -> FS.is_dir m fs' = true) /\
      (forall q, (forall s t, In (s, t) cs -> diverge (m ++ [t]) q = true) ->
                 FS.lookup q fs' = FS.lookup q fs) /\
      (forall t, FS.is_dir (m ++ [t]) fs = false -> FS.is_dir (m ++ [t]) fs' = false) /\
      (forall l1 s t l2,
          cs = l1 ++ (s, t) :: l2 -> (forall c, In c l2 -> snd c <> t) ->
          exists k c, FS.lookup s fs = Some (File true c) /\
                      FS.lookup (m ++ [t]) fs' = Some (File k c)).
Proof.
  induction cs as [| [s0 t0] cs IH]; intros Hstatic fs Hm Hdyn.
  - exists fs. split; [reflexivity |]. split; [auto |]. split; [auto |].
    split; [auto |]. intros [] ? ? ? ?; discriminate.
  - assert (Hm0 : FS.is_dir m fs = true) by (apply Hm; discriminate).
    destruct (Hdyn s0 t0 (or_introl eq_refl)) as [[c0 Hs0] Ht0].
    destruct (copyfile_run s0 m t0 c0 fs Hs0 Hm0 Ht0) as (fs1 & k0 & Hrun1 & Hput1).
    { apply (Hstatic s0 t0 s0 t0); now left. }
    assert (Hm1 : FS.is_dir m fs1 = true) by exact (put_keeps_parent _ _ _ _ _ Hput1).
    assert (Hframe1 : forall q, diverge (m ++ [t0]) q = true ->
                                FS.lookup q fs1 = FS.lookup q fs).
    { intros q Hq. exact (lookup_put_diverge _ _ _ _ _ Hq Hput1). }
    assert (Hdir1 : forall t, FS.is_dir (m ++ [t]) fs = false ->
                              FS.is_dir (m ++ [t]) fs1 = false).
    { intros t Ht. destruct (string_dec t0 t) as [<- | Hne].
      - unfold FS.is_dir. now rewrite (lookup_put_same _ _ _ _ Hput1).
      - unfold FS.is_dir. rewrite Hframe1; [exact Ht |].
        now apply diverge_siblings. }
    destruct (IH (fun s t s' t' H H' => Hstatic s t s' t' (or_intror H) (or_intror H'))
                 fs1 (fun _ => Hm1)) as (fs' & Hrun & Hm' & Hframe & Hdir & Hlast).
    { intros s t Hin. destruct (Hdyn s t (or_intror Hin)) as [[c Hs] Ht]. split.
      - exists c. rewrite Hframe1; [exact Hs |].
        apply (Hstatic s0 t0 s t); [now left | now right].
      - now apply Hdir1. }
    exists fs'. split; [| split; [| split; [| split]]].
    + cbn [for_ map fst snd]. erewrite bind_step by eassumption. reflexivity.
    + auto.
    + intros q Hq. rewrite Hframe.
      * apply Hframe1. apply (Hq s0 t0). now left.
      * intros s t Hin. apply (Hq s t). now right.
    + auto.
    + intros l1 s t l2 Heq Hl2. destruct l1 as [| x l1]; cbn [app] in Heq.
      * injection Heq as Es Et El. subst s t l2.
        exists k0, c0. split; [exact Hs0 |].
        rewrite Hframe; [exact (lookup_put_same _ _ _ _ Hput1) |].
        intros s' t' Hin. apply diverge_siblings.
        intros <-. exact (Hl2 _ Hin eq_refl).
      * injection Heq as Ex El. subst x cs.
        destruct (Hlast l1 s t l2 eq_refl Hl2) as (k & c & Hs & Ht).
        exists k, c. split; [| exact Ht].
        rewrite <- Hs. symmetry. apply Hframe1.
        apply (Hstatic s0 t0 s t); [now left |].
        right. apply in_or_app. right. now left.
Qed.

Lemma for_ext {A} (l : list A) (f g : A -> M unit) :
  (forall x fs, f x fs = g x fs) -> forall fs, for_ l f fs = for_ l g fs.
Proof.
  intros Hfg. induction l as [| x l IH]; intros fs; [reflexivity |].
  cbn [for_]. rewrite !bind_run, Hfg. destruct (out (g x fs)); [| reflexivity].
  now rewrite IH.
Qed.

Lemma for_map {A B} (g : A -> B) (l : list A) (f : B -> M unit) (fs : node) :
  for_ (map g l) f fs = for_ l (fun x => f (g x)) fs.
Proof.
  revert fs. induction l as [| x l IH]; intros fs; [reflexivity |].
  cbn [for_ map]. apply bind_ext. intros _ fs'. apply IH.
Qed.

Lemma glob_not_dir (p : path) (prefix : string) (fs : node) :
  FS.is_dir p fs = false -> FS.glob p prefix fs = [].
Proof.
  unfold FS.is_dir, FS.glob. now destruct (FS.lookup p fs) as [[|] |].
Qed.

Lemma glob_entry (p : path) (prefix : string) (fs : node) (file : path) :
  In file (FS.glob p prefix fs) ->
  exists entry, file = p ++ [entry] /\ Str.startswith prefix entry = true.
Proof.
  unfold FS.glob. destruct (FS.lookup p fs) as [[| es] |]; try contradiction.
  intros Hin. apply in_map_iff in Hin as ([entry n] & <- & Hin).
  apply filter_In in Hin as [_ Hpre]. eauto.
Qed.

Lemma glob_frame (p : path) (prefix : string) (fs fs' : node) :
  FS.lookup p fs' = FS.lookup p fs -> FS.glob p prefix fs' = FS.glob p prefix fs.
Proof. unfold FS.glob. now intros ->. Qed.

Lemma license_not_src (entry : string) :
  Str.startswith "LICENSE" entry = true -> ("src" =? entry)%string = false.
Proof.
  destruct entry as [| c entry]; [discriminate |].
  unfold Str.startswith. cbn [String.prefix].
  destruct (ascii_dec "L" c) as [<- | _]; [reflexivity | discriminate].
Qed.

Section Licenses.

Variable E : Env.
Variable self : AddonBuilder.

Local Open Scope string_scope.

Hypothesis Hmodule :
  _path_dist_module self = PATH_DIST E // "src" // module_name (_config self).

Lemma module_below_src :
  exists rest, _path_dist_module self = (PATH_DIST E ++ "src" :: rest)%list.
Proof.
  rewrite Hmodule. rewrite (joinpath_name _ "src") by discriminate.
  unfold joinpath. destruct (module_name (_config self) =? "").
  - now exists [].
  - exists [module_name (_config self)]. now rewrite <- app_assoc.
Qed.

Lemma license_target_name (file : path) :
  license_target self file = (_path_dist_module self ++ [stem file +:+ ".txt"])%list.
Proof.
  unfold license_target. apply joinpath_name, append_not_empty. discriminate.
Qed.

Lemma license_copies_names (fs : node) :
  license_copies E self fs =
  map (fun c => (fst c, (_path_dist_module self ++ [snd c])%list)) (license_names E fs).
Proof.
  unfold license_copies, license_names.
  induction (_paths_licenses E) as [| dir dirs IH]; [reflexivity |].
  cbn [flat_map]. rewrite map_app, IH. f_equal.
  rewrite map_map. apply map_ext. intros file. cbn [fst snd].
  now rewrite license_target_name.
Qed.

(** No license file lies at or below a target, and neither does the
    second candidate directory. *)
Lemma license_source_diverges (fs : node) (s : path) (t t' : string) :
  In (s, t) (license_names E fs) ->
  diverge (_path_dist_module self ++ [t'])%list s = true.
Proof.
  destruct module_below_src as [rest ->].
  unfold license_names, _paths_licenses. cbn [flat_map]. rewrite app_nil_r.
  intros Hin. apply in_app_or in Hin as [Hin | Hin];
    apply in_map_iff in Hin as (file & [= <- _] & Hin);
    apply glob_entry in Hin as (entry & -> & Hpre).
  - rewrite <- app_assoc, diverge_app. cbn [app diverge].
    now rewrite (license_not_src _ Hpre).
  - rewrite (joinpath_name _ "resources") by discriminate.
    rewrite <- !app_assoc, diverge_app. reflexivity.
Qed.

Lemma resources_diverges (t : string) :
  diverge (_path_dist_module self ++ [t])%list (PATH_DIST E // "resources") = true.
Proof.
  destruct module_below_src as [rest ->].
  rewrite (joinpath_name _ "resources") by discriminate.
  rewrite <- app_assoc, diverge_app. reflexivity.
Qed.

(** The body of the loop over the candidate directories. *)
Lemma license_dir_run (dir : path) (fs : node) :
  (d <- is_dir dir ;;
   if negb d then ret tt
   else
     files <- glob_prefix dir "LICENSE" ;;
     for_ files (fun file =>
       copyfile file (_path_dist_module self // (stem file +:+ ".txt")))) fs =
  for_ (map (fun file => (file, stem file +:+ ".txt")) (FS.glob dir "LICENSE" fs))
       (fun c => copyfile (fst c) (_path_dist_module self ++ [snd c])%list) fs.
Proof.
  unfold is_dir. rewrite bind_assoc, get_bind, ret_bind.
  destruct (FS.is_dir dir fs) eqn:Hd; cbn [negb].
  - unfold glob_prefix. rewrite bind_assoc, get_bind, ret_bind.
    rewrite for_map. cbn [fst snd].
    apply for_ext. intros file fs'.
    change (_path_dist_module self // (stem file +:+ ".txt"))
      with (license_target self file).
    now rewrite license_target_name.
  - rewrite (glob_not_dir _ _ _ Hd). reflexivity.
Qed.

End Licenses.

Lemma bind_cong {A B} (m m' : M A) (k k' : A -> M B) (fs : node) :
  m fs = m' fs ->
  (forall a, out (m fs) = Ret a -> k a (fs_of (m fs)) = k' a (fs_of (m fs))) ->
  bind m k fs = bind m' k' fs.
Proof.
  intros Hm Hk. rewrite !bind_run, <- Hm.
  destruct (out (m fs)) as [a | e] eqn:Ho; [| reflexivity].
  now rewrite (Hk a eq_refl).
Qed.

Section LicenseClaim.

Variable E : Env.
Variable self : AddonBuilder.

Local Open Scope string_scope.

Hypothesis Hmodule :
  _path_dist_module self = PATH_DIST E // "src" // module_name (_config self).

Variable fs : node.

Hypothesis Hcopyable : forallb (copyable self fs) (license_copies E self fs) = true.

Lemma license_names_static (s : path) (t : string) (s' : path) (t' : string) :
  In (s, t) (license_names E fs) -> In (s', t') (license_names E fs) ->
  diverge (_path_dist_module self ++ [t])%list s' = true.
Proof. intros _ Hin. exact (license_source_diverges E self Hmodule fs s' t' t Hin). Qed.

Lemma license_names_dynamic (s : path) (t : string) :
  In (s, t) (license_names E fs) ->
  ((exists c, FS.lookup s fs = Some (File true c)) /\
   FS.is_dir (_path_dist_module self ++ [t])%list fs = false) /\
  FS.is_dir (_path_dist_module self) fs = true.
Proof.
  intros Hin.
  assert (Hc : In (s, (_path_dist_module self ++ [t])%list) (license_copies E self fs)).
  { rewrite (license_copies_names E self). apply in_map_iff. now exists (s, t). }
  pose proof (proj1 (forallb_forall _ _) Hcopyable _ Hc) as Hok.
  unfold copyable in Hok. cbn [fst snd] in Hok.
  destruct (FS.lookup s fs) as [[[|] c | es] |]; try discriminate.
  apply andb_true_iff in Hok as [Ht Hm]. apply negb_true_iff in Ht.
  split; [split; [eauto | exact Ht] | exact Hm].
Qed.

Lemma license_module_dir : license_names E fs <> [] ->
  FS.is_dir (_path_dist_module self) fs = true.
Proof.
  destruct (license_names E fs) as [| [s t] l] eqn:Hl; [contradiction |].
  intros _. apply (license_names_dynamic s t). rewrite Hl. now left.
Qed.

(** The two nested loops make the copies listed on the file system as it
    is at the start. *)
Lemma license_loops_flat :
  for_ (_paths_licenses E) (fun path =>
    d <- is_dir path ;;
    if negb d then ret tt
    else
      files <- glob_prefix path "LICENSE" ;;
      for_ files (fun file =>
        let target := _path_dist_module self // (stem file +:+ ".txt") in
        copyfile file target)) fs =
  for_ (license_names E fs)
       (fun c => copyfile (fst c) (_path_dist_module self ++ [snd c])%list) fs.
Proof.
  unfold license_names, _paths_licenses. cbn [for_ flat_map].
  set (pair := fun file : path => (file, stem file +:+ ".txt")).
  set (cs1 := map pair (FS.glob (PATH_DIST E) "LICENSE" fs)).
  set (cs2 := map pair (FS.glob (PATH_DIST E // "resources") "LICENSE" fs)).
  rewrite for_app.
  assert (Hsub : forall c, In c cs1 -> In c (license_names E fs)).
  { intros c Hc. unfold license_names, _paths_licenses. cbn [flat_map].
    apply in_or_app. now left. }
  destruct (copies_run (_path_dist_module self) cs1) with (fs := fs)
    as (fs1 & Hrun1 & _ & Hframe1 & _).
  { intros s t s' t' H H'. apply (license_names_static s t s' t'); auto. }
  { intros Hne. apply license_module_dir. intros Hnil.
    destruct cs1 as [| c cs1']; [contradiction |].
    specialize (Hsub c (or_introl eq_refl)). rewrite Hnil in Hsub. contradiction. }
  { intros s t Hin. apply license_names_dynamic. auto. }
  clear Hsub. subst cs1 cs2 pair.
  apply bind_cong.
  - apply (license_dir_run self).
  - intros [] _. cbv beta zeta.
    rewrite (license_dir_run self (PATH_DIST E) fs), Hrun1.
    cbn [fs_of]. rewrite for_app. apply bind_cong; [| reflexivity].
    rewrite (license_dir_run self).
    rewrite (glob_frame _ _ fs fs1); [reflexivity |].
    apply Hframe1. intros s t _. apply (resources_diverges E self Hmodule).
Qed.


End LicenseClaim.


(** * Further properties of the builder *)

(** ** What computations emit and leave alone *)

Section Emits.

Variable P : event -> bool.

Lemma emits_ret {A} (a : A) : emits P (ret a).
Proof. intros fs. reflexivity. Qed.

Lemma emits_get : emits P get_fs.
Proof. intros fs. reflexivity. Qed.

Lemma emits_emit (e : event) : P e = true -> emits P (emit e).
Proof. intros He fs. cbn. now rewrite He. Qed.

Lemma emits_call (e : event) (f : effect) : P e = true -> emits P (call e f).
Proof. intros He fs. rewrite call_run. cbn. now rewrite He. Qed.

Lemma emits_bind {A B} (m : M A) (k : A -> M B) :
  emits P m -> (forall a, emits P (k a)) -> emits P (bind m k).
Proof.
  intros Hm Hk fs. rewrite bind_run.
  destruct (out (m fs)); cbn [events]; [| apply Hm].
  rewrite forallb_app, Hm. apply Hk.
Qed.

Lemma emits_for {A} (l : list A) (f : A -> M unit) :
  (forall x, emits P (f x)) -> emits P (for_ l f).
Proof.
  intros Hf. induction l as [| x l IH]; [apply emits_ret |].
  cbn [for_]. apply emits_bind; [apply Hf | intros _; exact IH].
Qed.

Lemma emits_finally {A} (m : M A) (fin : M unit) :
  emits P m -> emits P fin -> emits P (finally m fin).
Proof.
  intros Hm Hf fs. unfold finally.
  destruct (out (fin (fs_of (m fs)))); cbn [events];
    now rewrite forallb_app, Hm, Hf.
Qed.

End Emits.

Section Leaves.

Variable q : path.

Lemma leaves_ret {A} (a : A) : leaves q (ret a).
Proof. intros fs. reflexivity. Qed.

Lemma leaves_emit (e : event) : leaves q (emit e).
Proof. intros fs. reflexivity. Qed.

Lemma leaves_bind {A B} (m : M A) (k : A -> M B) :
  leaves q m -> (forall a, leaves q (k a)) -> leaves q (bind m k).
Proof.
  intros Hm Hk fs. rewrite bind_run.
  destruct (out (m fs)); cbn [fs_of]; [| apply Hm].
  now rewrite Hk, Hm.
Qed.

Lemma leaves_for {A} (l : list A) (f : A -> M unit) :
  (forall x, leaves q (f x)) -> leaves q (for_ l f).
Proof.
  intros Hf. induction l as [| x l IH]; [apply leaves_ret |].
  cbn [for_]. apply leaves_bind; [apply Hf | intros _; exact IH].
Qed.

Lemma leaves_finally {A} (m : M A) (fin : M unit) :
  leaves q m -> leaves q fin -> leaves q (finally m fin).
Proof.
  intros Hm Hf fs. unfold finally.
  destruct (out (fin (fs_of (m fs)))); cbn [fs_of]; now rewrite Hf, Hm.
Qed.

Lemma leaves_unlink (p : path) : diverge p q = true -> leaves q (unlink p).
Proof.
  intros Hd fs. unfold unlink, bind, emit, get_fs, set_fs, raise. cbn.
  destruct (FS.lookup p fs) as [[r c | es] |]; cbn; try reflexivity.
  now apply lookup_remove_diverge.
Qed.

Lemma leaves_zip_open (p : path) : diverge p q = true -> leaves q (zip_open p).
Proof.
  intros Hd fs. unfold zip_open, bind, emit, get_fs, set_fs, raise. cbn.
  destruct (FS.is_dir p fs); [reflexivity |].
  destruct (FS.put p _ fs) as [fs' |] eqn:Hput; cbn; [| reflexivity].
  exact (lookup_put_diverge _ _ _ _ _ Hd Hput).
Qed.

Lemma leaves_zip_write (p : path) (filename arcname : string) (src : node) :
  diverge p q = true -> leaves q (zip_write p filename arcname src).
Proof.
  intros Hd fs. unfold zip_write, bind, emit, get_fs, set_fs, raise.
  destruct src as [[|] c | es]; cbn; try reflexivity.
  destruct (FS.lookup p fs) as [[r [s | [|] es'] | es'] |]; cbn; try reflexivity.
  destruct (FS.put p _ fs) as [fs' |] eqn:Hput; cbn; [| reflexivity].
  exact (lookup_put_diverge _ _ _ _ _ Hd Hput).
Qed.

Lemma leaves_zip_close (p : path) : diverge p q = true -> leaves q (zip_close p).
Proof.
  intros Hd fs. unfold zip_close, bind, emit, get_fs, set_fs, raise. cbn.
  destruct (FS.lookup p fs) as [[r [s | [|] es'] | es'] |]; cbn; try reflexivity.
  destruct (FS.put p _ fs) as [fs' |] eqn:Hput; cbn; [| reflexivity].
  exact (lookup_put_diverge _ _ _ _ _ Hd Hput).
Qed.

Lemma leaves_copy_to (src dst : path) (mode : option bool) :
  diverge dst q = true -> leaves q (copy_to src dst mode).
Proof.
  intros Hd fs. unfold copy_to, bind, emit, get_fs, set_fs, raise. cbn.
  destruct (path_eqb src dst); [reflexivity |].
  destruct (FS.lookup src fs) as [[[|] c | es] |]; cbn; try reflexivity.
  destruct (FS.is_dir dst fs); [reflexivity |].
  destruct (FS.put dst _ fs) as [fs' |] eqn:Hput; cbn; [| reflexivity].
  exact (lookup_put_diverge _ _ _ _ _ Hd Hput).
Qed.

End Leaves.

Lemma leaves_get (q : path) : leaves q get_fs.
Proof. intros fs. reflexivity. Qed.

Lemma leaves_exists (q p : path) : leaves q (exists_ p).
Proof. intros fs. reflexivity. Qed.

Lemma put_without_parent (p : path) (v fs : node) :
  p <> [] -> FS.is_dir (parent p) fs = false ->
  FS.put p v fs = None /\ FS.lookup p fs = None.
Proof.
  unfold FS.is_dir, parent.
  revert fs. induction p as [| x p IH]; intros fs Hp; [contradiction |].
  destruct p as [| y p]; cbn [removelast FS.lookup FS.put].
  - destruct fs; [auto | discriminate].
  - destruct fs as [| es]; [auto |].
    destruct (assoc x es) as [c |]; [| auto].
    intros Hpar. destruct (IH c) as [Hput Hl]; [discriminate | exact Hpar |].
    cbn [FS.lookup] in Hl. rewrite Hl. cbn [FS.put] in Hput. rewrite Hput. auto.
Qed.

(** ** Packaging: edges and invariants *)

Section PackagingEdges.

Variable E : Env.

Local Open Scope string_scope.

Lemma package_frame (self : AddonBuilder) (qts : list QtVersion)
      (dt : string) (q : path) :
  diverge (out_path_of E self qts dt) q = true ->
  leaves q (_package E self qts dt).
Proof.
  intros Hd.
  unfold _package. fold (out_path_of E self qts dt).
  apply leaves_bind; [apply leaves_emit |]. intros _.
  apply leaves_bind; [apply leaves_exists |]. intros ex.
  apply leaves_bind.
  { destruct ex; [now apply leaves_unlink | apply leaves_ret]. }
  intros _. apply leaves_bind.
  - unfold with_ZipFile. apply leaves_bind; [now apply leaves_zip_open |].
    intros _. apply leaves_finally; [| now apply leaves_zip_close].
    apply leaves_bind; [apply leaves_get |]. intros fs0.
    apply leaves_for. intros [[root dirs] files].
    apply leaves_for. intros [file src]. now apply leaves_zip_write.
  - intros _. apply leaves_bind; [apply leaves_emit |]. intros _.
    apply leaves_bind; [apply leaves_emit |]. intros _. apply leaves_ret.
Qed.


(** X2. When the output path is a directory, [exists()] holds and
    [unlink()] raises: [_package] stops there, before any archive is
    opened, and the file system is as before. *)
Theorem package_over_directory (self : AddonBuilder) (qts : list QtVersion)
        (dt : string) (fs : node) :
  let out_path := out_path_of E self qts dt in
  FS.is_dir out_path fs = true ->
  _package E self qts dt fs =
    Res (Raise (OSError (str out_path))) fs
        [Log INFO "Packaging add-on..."; Unlink out_path].
Proof.
  intros out_path Hdir. unfold FS.is_dir in Hdir.
  destruct (FS.lookup out_path fs) as [[r c | es] |] eqn:Hl; try discriminate.
  unfold _package. fold (out_path_of E self qts dt). fold out_path.
  eapply eq_trans.
  { eapply bind_step; [reflexivity |].
    rewrite exists_bind. unfold FS.exists_. rewrite Hl.
    apply bind_fail.
    unfold unlink, bind, emit, get_fs, raise. cbn. rewrite Hl. reflexivity. }
  reflexivity.
Qed.

(** X3. When the directory [PATH_ROOT / "build"] is not there, nothing
    is at the output path and opening the archive raises: [_package]
    stops there, nothing is written or closed, and the file system is as
    before. *)
Theorem package_without_build_dir (self : AddonBuilder) (qts : list QtVersion)
        (dt : string) (fs : node) :
  let out_path := out_path_of E self qts dt in
  FS.is_dir (PATH_ROOT E // "build") fs = false ->
  _package E self qts dt fs =
    Res (Raise (OSError (str out_path))) fs
        [Log INFO "Packaging add-on..."; ZipOpen out_path].
Proof.
  intros out_path Hbuild.
  assert (Hpar : parent out_path = PATH_ROOT E // "build").
  { unfold out_path. rewrite out_path_parts.
    change (PATH_ROOT E ++ ["build"; ?n])%list
      with (PATH_ROOT E ++ ["build"] ++ [n])%list.
    rewrite app_assoc, parent_snoc. now rewrite joinpath_name by discriminate. }
  destruct (put_without_parent out_path (File true (Zip false [])) fs)
    as [Hput Hl].
  { apply out_path_not_root. }
  { now rewrite Hpar. }
  unfold _package. fold (out_path_of E self qts dt). fold out_path.
  eapply eq_trans.
  { eapply bind_step; [reflexivity |].
    rewrite exists_bind. unfold FS.exists_. rewrite Hl.
    eapply bind_step; [reflexivity |].
    apply bind_fail. unfold with_ZipFile. apply bind_fail.
    unfold zip_open, bind, emit, get_fs, raise, FS.is_dir. cbn.
    rewrite Hl, Hput. reflexivity. }
  reflexivity.
Qed.



End PackagingEdges.

(** ** The constructor: invariants and errors *)

Section InitFacts.

Variable E : Env.

Local Open Scope string_scope.

Lemma queries_read_only (version : option string) :
  forallb (fun e => negb (mutating e)) (queries E version) = true.
Proof.
  unfold queries.
  now destruct ((parse_version E version =? "dev")
                && (call_shell E "git status --porcelain" =? "")).
Qed.

(** X6. A builder that [__init__] returns has a version that is not
    empty, the callback it was given, the configuration that was loaded,
    and [PATH_DIST / "src" / module_name] as its module directory; making
    it changed nothing on disk. *)
Theorem init_builder (version : option string) (cb : option effect) (fs : node)
        (self : AddonBuilder) :
  out (__init__ E version cb fs) = Ret self ->
  _version self <> "" /\
  _version self = resolve E version /\
  _callback_archive self = cb /\
  load_config E = Ret (_config self) /\
  _path_dist_module self = PATH_DIST E // "src" // module_name (_config self) /\
  fs_of (__init__ E version cb fs) = fs /\
  forallb (fun e => negb (mutating e)) (events (__init__ E version cb fs)) = true.
Proof.
  rewrite init_run. unfold constructed.
  destruct (resolve E version =? "") eqn:Hres; cbn [out]; [discriminate |].
  apply String.eqb_neq in Hres.
  destruct (load_config E) as [config | e]; cbn [out fs_of events]; [| discriminate].
  intros [= <-]. cbn. repeat split; try assumption. apply queries_read_only.
Qed.

(** X7. A builder made on a clean working tree carries the version
    ["dev"] only if that is what Git gives for ["current"]: whatever
    selector was passed, a ["dev"] from Git is not kept when
    [git status --porcelain] is empty. *)
Theorem init_clean_tree_not_dev (version : option string) (cb : option effect)
        (fs : node) (self : AddonBuilder) :
  out (__init__ E version cb fs) = Ret self ->
  call_shell E "git status --porcelain" = "" ->
  _version self = "dev" ->
  parse_version E (Some "current") = "dev".
Proof.
  intros Hout Hclean Hdev.
  rewrite (init_version E version cb fs self Hout) in Hdev.
  unfold resolve in Hdev. rewrite Hclean in Hdev. cbn in Hdev.
  destruct (parse_version E version =? "dev") eqn:Hv; cbn in Hdev; [exact Hdev |].
  apply String.eqb_neq in Hv. contradiction.
Qed.

(** X8. The configuration is loaded only after the version is settled:
    when the token is not empty and [Config()] raises, [__init__] raises
    that error, having made its queries and logged nothing. *)
Theorem init_config_error (version : option string) (cb : option effect)
        (fs : node) (e : exn) :
  resolve E version <> "" ->
  load_config E = Raise e ->
  __init__ E version cb fs = Res (Raise e) fs (queries E version).
Proof.
  intros Hres Hcfg. rewrite init_run. apply String.eqb_neq in Hres.
  rewrite Hres. unfold constructed. now rewrite Hcfg.
Qed.

End InitFacts.

(** ** Cleaning and export: errors *)

Lemma mkdirs_through_file (p : path) (x : string) (rest : path) (fs : node)
      (r : bool) (c : content) :
  FS.lookup p fs = Some (File r c) -> FS.mkdirs (p ++ x :: rest) fs = None.
Proof.
  revert fs. induction p as [| y p IH]; intros fs; cbn [app FS.lookup FS.mkdirs].
  - now intros [= ->].
  - destruct fs as [| es]; [reflexivity |].
    destruct (assoc y es) as [child |]; [| discriminate].
    intros Hl. now rewrite (IH child Hl).
Qed.

Lemma lookup_through_file (p : path) (x : string) (rest : path) (fs : node)
      (r : bool) (c : content) :
  FS.lookup p fs = Some (File r c) -> FS.lookup (p ++ x :: rest) fs = None.
Proof. intros Hl. now rewrite lookup_app, Hl. Qed.

Section CleaningErrors.

Variable E : Env.

Local Open Scope string_scope.

(** X9. When a regular file is where the working area should be,
    [exists()] holds and [rmtree] raises: the build stops in
    [clean_repo], the purge is not called, and nothing has changed. *)
Theorem build_dist_is_file (self : AddonBuilder) (qts : list QtVersion)
        (dt : string) (pyenv : option string) (fs : node) (r : bool) (c : content) :
  FS.lookup (PATH_DIST E) fs = Some (File r c) ->
  build E self qts dt pyenv fs =
    Res (Raise (OSError (str (PATH_DIST E)))) fs
        [Log INFO (Str.nl +:+ "--- Building " +:+ display_name (_config self) +:+ " "
                   +:+ _version self +:+ " for " +:+ dt +:+ " ---" +:+ Str.nl);
         Log INFO ("Preparing source tree for " +:+ display_name (_config self)
                   +:+ " " +:+ _version self +:+ " ...");
         Log INFO "Cleaning repository...";
         Rmtree (PATH_DIST E)].
Proof.
  intros Hl. unfold build, create_dist, clean_repo.
  eapply eq_trans.
  { eapply bind_step; [reflexivity |].
    apply bind_fail. eapply bind_step; [reflexivity |].
    apply bind_fail. eapply bind_step; [reflexivity |].
    rewrite exists_bind. unfold FS.exists_. rewrite Hl.
    apply bind_fail.
    unfold rmtree, bind, emit, get_fs, raise. cbn. rewrite Hl. reflexivity. }
  reflexivity.
Qed.

(** X10. When the purge raises, the build raises that error there: the
    working area, removed if it was there, is not made again and nothing
    is exported; the file system is as the purge left it. *)
Theorem build_purge_error (self : AddonBuilder) (qts : list QtVersion)
        (dt : string) (pyenv : option string) (fs : node) (e : exn) :
  let dist := PATH_DIST E in
  let purged := purge E "." ["*.pyc"; "*.pyo"; "__pycache__"] true (cleared dist fs) in
  (FS.exists_ dist fs = true -> FS.is_dir dist fs = true) ->
  fst purged = Raise e ->
  build E self qts dt pyenv fs =
    Res (Raise e) (snd purged)
        ([Log INFO (Str.nl +:+ "--- Building " +:+ display_name (_config self) +:+ " "
                    +:+ _version self +:+ " for " +:+ dt +:+ " ---" +:+ Str.nl);
          Log INFO ("Preparing source tree for " +:+ display_name (_config self)
                    +:+ " " +:+ _version self +:+ " ...");
          Log INFO "Cleaning repository..."] ++
         (if FS.exists_ dist fs then [Rmtree dist] else []) ++
         [Purge "." ["*.pyc"; "*.pyo"; "__pycache__"] true])%list.
Proof.
  intros dist purged Hdir Hfail.
  pose proof (clean_repo_run E fs Hdir) as Hclean.
  change _trash_patterns with ["*.pyc"; "*.pyo"; "__pycache__"] in Hclean.
  fold dist purged in Hclean. rewrite Hfail in Hclean.
  unfold build, create_dist.
  eapply eq_trans.
  { eapply bind_step; [reflexivity |].
    apply bind_fail. eapply bind_step; [reflexivity |].
    apply bind_fail. exact Hclean. }
  reflexivity.
Qed.

(** X11. When, after the purge, a regular file lies on the way to the
    working area, [mkdir(parents=True)] raises: the build stops there and
    the export is not called. *)
Theorem build_mkdir_error (self : AddonBuilder) (qts : list QtVersion)
        (dt : string) (pyenv : option string) (fs : node)
        (p : path) (x : string) (rest : path) (r : bool) (c : content) :
  let dist := PATH_DIST E in
  let purged := purge E "." ["*.pyc"; "*.pyo"; "__pycache__"] true (cleared dist fs) in
  (FS.exists_ dist fs = true -> FS.is_dir dist fs = true) ->
  fst purged = Ret tt ->
  dist = (p ++ x :: rest)%list ->
  FS.lookup p (snd purged) = Some (File r c) ->
  let b := build E self qts dt pyenv fs in
  out b = Raise (OSError (str dist)) /\
  fs_of b = snd purged /\
  last (events b) (Log INFO "") = Mkdir dist /\
  forallb (fun e => match e with GitArchive _ _ => false | _ => true end)
          (events b) = true.
Proof.
  intros dist purged Hdir Hok Hsplit Hfile b.
  pose proof (clean_repo_run E fs Hdir) as Hclean.
  change _trash_patterns with ["*.pyc"; "*.pyo"; "__pycache__"] in Hclean.
  fold dist purged in Hclean. rewrite Hok in Hclean.
  assert (Hmk : mkdir_parents dist (snd purged) =
                Res (Raise (OSError (str dist))) (snd purged) [Mkdir dist]).
  { pose proof (lookup_through_file p x rest _ _ _ Hfile) as Hex.
    pose proof (mkdirs_through_file p x rest _ _ _ Hfile) as Hno.
    rewrite <- Hsplit in Hex, Hno.
    unfold mkdir_parents, bind, emit, get_fs, raise, FS.exists_. cbn.
    now rewrite Hex, Hno. }
  assert (Hb : b = Res (Raise (OSError (str dist))) (snd purged)
                 ([Log INFO (Str.nl +:+ "--- Building " +:+ display_name (_config self)
                             +:+ " " +:+ _version self +:+ " for " +:+ dt +:+ " ---"
                             +:+ Str.nl);
                   Log INFO ("Preparing source tree for " +:+ display_name (_config self)
                             +:+ " " +:+ _version self +:+ " ...");
                   Log INFO "Cleaning repository..."] ++
                  (if FS.exists_ dist fs then [Rmtree dist] else []) ++
                  [Purge "." ["*.pyc"; "*.pyo"; "__pycache__"] true; Mkdir dist])%list).
  { subst b. unfold build, create_dist.
    eapply eq_trans.
    { eapply bind_step; [reflexivity |].
      apply bind_fail. eapply bind_step; [reflexivity |].
      eapply bind_step; [exact Hclean |].
      apply bind_fail. exact Hmk. }
    f_equal. cbn [app]. now destruct (FS.exists_ dist fs). }
  rewrite Hb. cbn [out fs_of events].
  split; [reflexivity |]. split; [reflexivity |].
  destruct (FS.exists_ dist fs); split; reflexivity.
Qed.

End CleaningErrors.

(** ** The calls of each stage *)

Lemma emits_weaken {A} (P Q : event -> bool) (m : M A) :
  (forall e, P e = true -> Q e = true) -> emits P m -> emits Q m.
Proof.
  intros HPQ Hm fs. apply forallb_forall. intros e He.
  apply HPQ. exact (proj1 (forallb_forall _ _) (Hm fs) e He).
Qed.

Lemma emits_exists (P : event -> bool) (p : path) : emits P (exists_ p).
Proof. intros fs. reflexivity. Qed.

Lemma emits_is_dir (P : event -> bool) (p : path) : emits P (is_dir p).
Proof. intros fs. reflexivity. Qed.

Lemma emits_glob (P : event -> bool) (p : path) (prefix : string) :
  emits P (glob_prefix p prefix).
Proof. intros fs. reflexivity. Qed.

Lemma emits_copy_to (P : event -> bool) (src dst : path) (mode : option bool) :
  P (CopyFile src dst) = true -> emits P (copy_to src dst mode).
Proof. intros HP fs. rewrite copy_to_events. cbn. now rewrite HP. Qed.

Lemma emits_rmtree (P : event -> bool) (p : path) :
  P (Rmtree p) = true -> emits P (rmtree p).
Proof.
  intros HP fs. unfold rmtree, bind, emit, get_fs, set_fs, raise. cbn.
  destruct (FS.lookup p fs) as [[|] |]; cbn; now rewrite HP.
Qed.

Lemma emits_mkdir (P : event -> bool) (p : path) :
  P (Mkdir p) = true -> emits P (mkdir_parents p).
Proof.
  intros HP fs. unfold mkdir_parents, bind, emit, get_fs, set_fs, raise. cbn.
  destruct (FS.exists_ p fs); cbn; [now rewrite HP |].
  destruct (FS.mkdirs p fs); cbn; now rewrite HP.
Qed.

Lemma emits_unlink (P : event -> bool) (p : path) :
  P (Unlink p) = true -> emits P (unlink p).
Proof.
  intros HP fs. unfold unlink, bind, emit, get_fs, set_fs, raise. cbn.
  destruct (FS.lookup p fs) as [[|] |]; cbn; now rewrite HP.
Qed.

Lemma emits_zip_open (P : event -> bool) (p : path) :
  P (ZipOpen p) = true -> emits P (zip_open p).
Proof.
  intros HP fs. unfold zip_open, bind, emit, get_fs, set_fs, raise. cbn.
  destruct (FS.is_dir p fs); cbn; [now rewrite HP |].
  destruct (FS.put p _ fs); cbn; now rewrite HP.
Qed.

Lemma emits_zip_close (P : event -> bool) (p : path) :
  P (ZipClose p) = true -> emits P (zip_close p).
Proof.
  intros HP fs. unfold zip_close, bind, emit, get_fs, set_fs, raise. cbn.
  destruct (FS.lookup p fs) as [[r [s | [|] es'] | es'] |]; cbn; try now rewrite HP.
  destruct (FS.put p _ fs); cbn; now rewrite HP.
Qed.

Lemma emits_zip_write (P : event -> bool) (p : path) (filename arcname : string)
      (src : node) :
  P (ZipWrite p filename arcname) = true -> emits P (zip_write p filename arcname src).
Proof.
  intros HP fs. unfold zip_write, bind, emit, get_fs, set_fs, raise.
  destruct src as [[|] c | es]; cbn; try now rewrite HP.
  destruct (FS.lookup p fs) as [[r [s | [|] es'] | es'] |]; cbn; try now rewrite HP.
  destruct (FS.put p _ fs); cbn; now rewrite HP.
Qed.

Section StageCalls.

Variable E : Env.
Variable self : AddonBuilder.

Lemma copy_licenses_emits : emits copy_event (_copy_licenses E self).
Proof.
  unfold _copy_licenses.
  apply emits_bind; [now apply emits_emit |]. intros _.
  apply emits_for. intros dir.
  apply emits_bind; [apply emits_is_dir |]. intros d.
  destruct (negb d); [apply emits_ret |].
  apply emits_bind; [apply emits_glob |]. intros files.
  apply emits_for. intros file. now apply emits_copy_to.
Qed.

Lemma copy_changelog_emits : emits copy_event (_copy_changelog E self).
Proof.
  unfold _copy_changelog, copy.
  apply emits_bind; [now apply emits_emit |]. intros _.
  apply emits_bind; [apply emits_get |]. intros fs. now apply emits_copy_to.
Qed.

Lemma copy_event_quiet (e : event) : copy_event e = true -> quiet_event e = true.
Proof. now destruct e. Qed.

Lemma quiet_augment (e : event) : quiet_event e = true -> augment_event e = true.
Proof. unfold quiet_event. intros H. now apply andb_true_iff in H. Qed.

Lemma quiet_not_version (e : event) : quiet_event e = true -> version_event e = false.
Proof.
  unfold quiet_event. intros H. apply andb_true_iff in H as [_ H].
  now apply negb_true_iff.
Qed.

Lemma copy_optional_icons_emits : emits quiet_event (_copy_optional_icons E self).
Proof.
  unfold _copy_optional_icons.
  apply emits_bind; [now apply emits_emit |]. intros _. now apply emits_call.
Qed.

(** The steps of [build_dist] after the manifest. *)
Lemma after_manifest_emits (qts : list QtVersion) (pyenv : option string) :
  emits quiet_event
    (for_ qts (fun qt_version =>
       call (UIBuild (PATH_DIST E) qt_version pyenv)
            (ui_build E (PATH_DIST E) qt_version pyenv)) ;;
     has_gui <- exists_ (gui_path E (PATH_DIST E)) ;;
     if has_gui
     then logging INFO "Writing Qt compatibility shim..." ;;
          call (CreateQtShim (PATH_DIST E)) (create_qt_shim E (PATH_DIST E)) ;;
          logging INFO "Done."
     else ret tt).
Proof.
  apply emits_bind.
  { apply emits_for. intros qt. now apply emits_call. }
  intros _. apply emits_bind; [apply emits_exists |]. intros has_gui.
  destruct has_gui; [| apply emits_ret].
  apply emits_bind; [now apply emits_emit |]. intros _.
  apply emits_bind; [now apply emits_call |]. intros _. now apply emits_emit.
Qed.

Lemma build_dist_emits (qts : list QtVersion) (dt : string) (pyenv : option string) :
  emits augment_event (build_dist E self qts dt pyenv).
Proof.
  unfold build_dist.
  apply emits_bind.
  { apply (emits_weaken quiet_event); [exact quiet_augment |].
    exact (emits_weaken _ _ _ copy_event_quiet copy_licenses_emits). }
  intros _. apply emits_bind; [apply emits_exists |]. intros has_changelog.
  apply emits_bind.
  { destruct has_changelog; [| apply emits_ret].
    apply (emits_weaken quiet_event); [exact quiet_augment |].
    exact (emits_weaken _ _ _ copy_event_quiet copy_changelog_emits). }
  intros _. apply emits_bind; [apply emits_exists |]. intros has_icons.
  apply emits_bind.
  { destruct has_icons; [| apply emits_ret].
    exact (emits_weaken _ _ _ quiet_augment copy_optional_icons_emits). }
  intros _. apply emits_bind.
  { destruct (_callback_archive self); [now apply emits_call | apply emits_ret]. }
  intros _. apply emits_bind.
  { unfold _write_manifest. now apply emits_call. }
  intros _.
  exact (emits_weaken _ _ _ quiet_augment (after_manifest_emits qts pyenv)).
Qed.

Lemma create_dist_emits : emits export_event (create_dist E self).
Proof.
  unfold create_dist, clean_repo.
  apply emits_bind; [now apply emits_emit |]. intros _.
  apply emits_bind.
  { apply emits_bind; [now apply emits_emit |]. intros _.
    apply emits_bind; [apply emits_exists |]. intros ex.
    apply emits_bind; [| intros _; now apply emits_call].
    destruct ex; [now apply emits_rmtree | apply emits_ret]. }
  intros _. apply emits_bind; [now apply emits_mkdir |]. intros _.
  now apply emits_call.
Qed.

Lemma package_emits (qts : list QtVersion) (dt : string) :
  emits package_stage_event (_package E self qts dt).
Proof.
  unfold _package, with_ZipFile.
  apply emits_bind; [now apply emits_emit |]. intros _.
  apply emits_bind; [apply emits_exists |]. intros ex.
  apply emits_bind.
  { destruct ex; [now apply emits_unlink | apply emits_ret]. }
  intros _. apply emits_bind.
  - apply emits_bind; [now apply emits_zip_open |]. intros _.
    apply emits_finally; [| now apply emits_zip_close].
    apply emits_bind; [apply emits_get |]. intros fs0.
    apply emits_for. intros [[root dirs] files].
    apply emits_for. intros [file src]. now apply emits_zip_write.
  - intros _. apply emits_bind; [now apply emits_emit |]. intros _.
    apply emits_bind; [now apply emits_emit |]. intros _. apply emits_ret.
Qed.

End StageCalls.

Lemma filter_none {A} (P Q : A -> bool) (l : list A) :
  forallb P l = true -> (forall x, P x = true -> Q x = false) -> filter Q l = [].
Proof.
  intros HP HPQ. induction l as [| x l IH]; [reflexivity |].
  cbn in *. apply andb_true_iff in HP as [Hx Hl].
  now rewrite (HPQ x Hx), IH.
Qed.

(** A first part that makes no call carrying the version does not show
    among those calls. *)
Lemma version_calls_bind {A B} (m : M A) (k : A -> M B) (fs : node) :
  emits (fun e => negb (version_event e)) m ->
  filter version_event (events (bind m k fs)) =
  match out (m fs) with
  | Ret a => filter version_event (events (k a (fs_of (m fs))))
  | Raise _ => []
  end.
Proof.
  intros Hm.
  assert (Hnone : filter version_event (events (m fs)) = []).
  { apply (filter_none (fun e => negb (version_event e))); [apply Hm |].
    intros e He. now apply negb_true_iff. }
  rewrite bind_run. destruct (out (m fs)); cbn [events]; [| exact Hnone].
  now rewrite filter_app, Hnone.
Qed.

Lemma not_version_of_quiet (e : event) :
  quiet_event e = true -> negb (version_event e) = true.
Proof. intros H. now rewrite (quiet_not_version e H). Qed.

Lemma not_packaging_of_export (e : event) :
  export_event e = true -> negb (packaging_event e) = true.
Proof. now destruct e. Qed.

Lemma not_packaging_of_augment (e : event) :
  augment_event e = true -> negb (packaging_event e) = true.
Proof. now destruct e. Qed.

Section BuildFacts.

Variable E : Env.
Variable self : AddonBuilder.

Local Open Scope string_scope.


(** X13. A build whose export or augmentation raises ends with that
    error and with the file system as that stage left it, and has made no
    call on the output path: an archive of an earlier build is neither
    unlinked nor reopened. *)
Theorem build_stops_before_packaging (qts : list QtVersion) (dt : string)
        (pyenv : option string) (fs : node) :
  let r1 := create_dist E self fs in
  let r2 := build_dist E self qts dt pyenv (fs_of r1) in
  let b := build E self qts dt pyenv fs in
  succeeded (out r1) && succeeded (out r2) = false ->
  (forall e, out r1 = Raise e -> out b = Raise e /\ fs_of b = fs_of r1) /\
  (forall e, out r1 = Ret tt -> out r2 = Raise e ->
             out b = Raise e /\ fs_of b = fs_of r2) /\
  succeeded (out b) = false /\
  forallb (fun e => negb (packaging_event e)) (events b) = true.
Proof.
  intros r1 r2 b Hfail.
  assert (H1 : forallb (fun e => negb (packaging_event e)) (events r1) = true).
  { apply (emits_weaken export_event); [exact not_packaging_of_export |].
    apply create_dist_emits. }
  assert (H2 : forallb (fun e => negb (packaging_event e)) (events r2) = true).
  { apply (emits_weaken augment_event); [exact not_packaging_of_augment |].
    apply build_dist_emits. }
  assert (Hb : b = match out r1 with
                   | Raise e => Res (Raise e) (fs_of r1)
                                    (Log INFO (Str.nl +:+ "--- Building "
                                               +:+ display_name (_config self) +:+ " "
                                               +:+ _version self +:+ " for " +:+ dt
                                               +:+ " ---" +:+ Str.nl) :: events r1)
                   | Ret _ =>
                       match out r2 with
                       | Raise e => Res (Raise e) (fs_of r2)
                                        (Log INFO (Str.nl +:+ "--- Building "
                                                   +:+ display_name (_config self) +:+ " "
                                                   +:+ _version self +:+ " for " +:+ dt
                                                   +:+ " ---" +:+ Str.nl)
                                         :: events r1 ++ events r2)%list
                       | Ret _ => b
                       end
                   end).
  { subst b. unfold build. rewrite bind_run. cbn [logging emit out fs_of events].
    rewrite bind_run. fold r1. destruct (out r1); cbn [out fs_of events app]; [| reflexivity].
    rewrite bind_run. fold r2. destruct (out r2); cbn [out fs_of events app];
      reflexivity. }
  destruct (out r1) as [[] | e1] eqn:Ho1.
  - destruct (out r2) as [[] | e2] eqn:Ho2; [discriminate |].
    rewrite Hb. cbn [out fs_of events succeeded].
    split; [intros ? [=] |]. split; [now intros e _ [= <-] |].
    split; [reflexivity |].
    cbn [forallb packaging_event negb andb]. now rewrite forallb_app, H1, H2.
  - rewrite Hb. cbn [out fs_of events succeeded].
    split; [now intros e [= <-] |]. split; [intros ? [=] |].
    split; [reflexivity |]. cbn [forallb packaging_event negb andb]. exact H1.
Qed.


End BuildFacts.

(** ** Augmentation: the copies *)

Lemma diverge_prefix (m l q : path) :
  diverge m q = true -> diverge (m ++ l) q = true.
Proof.
  revert q. induction m as [| x m IH]; intros q; [discriminate |].
  destruct q as [| y q]; [discriminate |]. cbn [app diverge].
  destruct (x =? y)%string; [apply IH | reflexivity].
Qed.

Lemma diverge_joinpath (m q : path) (s : string) :
  diverge m q = true -> diverge (m // s) q = true.
Proof.
  intros Hd. unfold joinpath. destruct (s =? "")%string; [exact Hd |].
  now apply diverge_prefix.
Qed.

Lemma substring_prefix (a b : string) :
  String.substring 0 (String.length a) (a +:+ b) = a.
Proof.
  induction a as [| x a IH]; cbn.
  - now destruct b.
  - now rewrite IH.
Qed.

Lemma rfind_dot_append (a b : string) (i : nat) :
  Str.rfind_dot b = Some i -> Str.rfind_dot (a +:+ b) = Some (String.length a + i).
Proof.
  intros Hb. induction a as [| x a IH]; cbn; [exact Hb |]. now rewrite IH.
Qed.

Lemma stem_with_suffix (s ext : string) :
  s <> ""%string -> ext <> ""%string -> Str.rfind_dot ext = None ->
  stem_of_name (s +:+ "." +:+ ext) = s.
Proof.
  intros Hs Hext Hnodot. unfold stem_of_name.
  assert (Hdot : Str.rfind_dot ("." +:+ ext) = Some 0) by (cbn; now rewrite Hnodot).
  rewrite (rfind_dot_append s _ 0 Hdot), Nat.add_0_r, !length_append.
  assert (Hls : 0 < String.length s) by (destruct s; [contradiction | cbn; lia]).
  assert (Hle : 0 < String.length ext) by (destruct ext; [contradiction | cbn; lia]).
  replace (0 <? String.length s) with true by (symmetry; now apply Nat.ltb_lt).
  replace (String.length s <?
           String.length s + (String.length "." + String.length ext) - 1)
    with true by (symmetry; apply Nat.ltb_lt; cbn; lia).
  cbn [andb]. apply substring_prefix.
Qed.

Lemma stem_without_suffix (s : string) :
  Str.rfind_dot s = None -> stem_of_name s = s.
Proof. intros H. unfold stem_of_name. now rewrite H. Qed.

Lemma copy_to_mode_run (src dst : path) (m : bool) (c : content) (fs fs' : node) :
  path_eqb src dst = false ->
  FS.lookup src fs = Some (File true c) ->
  FS.is_dir dst fs = false ->
  FS.put dst (File m c) fs = Some fs' ->
  copy_to src dst (Some m) fs = Res (Ret tt) fs' [CopyFile src dst].
Proof.
  intros Hne Hsrc Hdst Hput.
  unfold copy_to, bind, emit, get_fs, set_fs, raise. cbn.
  now rewrite Hne, Hsrc, Hdst, Hput.
Qed.

Lemma copy_to_directory (src dst : path) (mode : option bool) (fs : node) :
  FS.is_dir src fs = true ->
  out (copy_to src dst mode fs) = Raise (OSError (str src)) /\
  fs_of (copy_to src dst mode fs) = fs.
Proof.
  unfold FS.is_dir. intros Hdir.
  unfold copy_to, bind, emit, get_fs, raise. cbn.
  destruct (path_eqb src dst); [auto |].
  destruct (FS.lookup src fs) as [[|] |]; try discriminate. auto.
Qed.

Section CopyFacts.

Variable E : Env.
Variable self : AddonBuilder.

Local Open Scope string_scope.

Lemma copy_licenses_frame (q : path) :
  diverge (_path_dist_module self) q = true -> leaves q (_copy_licenses E self).
Proof.
  intros Hd. unfold _copy_licenses.
  apply leaves_bind; [apply leaves_emit |]. intros _.
  apply leaves_for. intros dir.
  apply leaves_bind; [intros fs; reflexivity |]. intros d.
  destruct (negb d); [apply leaves_ret |].
  apply leaves_bind; [intros fs; reflexivity |]. intros files.
  apply leaves_for. intros file. unfold copyfile.
  apply leaves_copy_to. now apply diverge_joinpath.
Qed.

(** X15. In every run, returning or raising, [_copy_licenses] only logs
    and copies, and changes nothing away from the module directory: the
    license files themselves, and the rest of the export, stay as they
    are. *)
Theorem copy_licenses_only_adds (fs : node) (q : path) :
  diverge (_path_dist_module self) q = true ->
  FS.lookup q (fs_of (_copy_licenses E self fs)) = FS.lookup q fs /\
  forallb copy_event (events (_copy_licenses E self fs)) = true.
Proof.
  intros Hd. split; [now apply copy_licenses_frame | apply copy_licenses_emits].
Qed.

(** X16. The target of a license keeps the name up to its last suffix:
    a name without a dot gets [.txt] appended, and a name [s.ext] (with
    [s] and [ext] not empty and no dot in [ext]) becomes [s.txt], so that
    [s], [s.md] and [s.txt] from any directory share one target. *)
Theorem license_target_names (dir dir' : path) (s ext : string) :
  s <> "" -> ext <> "" -> Str.rfind_dot s = None -> Str.rfind_dot ext = None ->
  license_target self (dir ++ [s])%list
    = (_path_dist_module self ++ [s +:+ ".txt"])%list /\
  license_target self (dir' ++ [s +:+ "." +:+ ext])%list
    = (_path_dist_module self ++ [s +:+ ".txt"])%list /\
  license_target self (dir' ++ [s +:+ ".txt"])%list
    = (_path_dist_module self ++ [s +:+ ".txt"])%list.
Proof.
  intros Hs Hext Hs_nodot Hext_nodot.
  rewrite !(license_target_name self). unfold stem, basename.
  rewrite !last_last.
  rewrite (stem_without_suffix s Hs_nodot).
  rewrite (stem_with_suffix s ext Hs Hext Hext_nodot).
  change (s +:+ ".txt") with (s +:+ "." +:+ "txt") at 5.
  rewrite (stem_with_suffix s "txt" Hs); [auto | discriminate | reflexivity].
Qed.

Hypothesis Hmodule :
  _path_dist_module self = PATH_DIST E // "src" // module_name (_config self).

Lemma changelog_diverges (t : string) :
  diverge (_path_dist_module self ++ [t])%list (_path_changelog E) = true.
Proof.
  destruct (module_below_src E self Hmodule) as [rest ->].
  unfold _path_changelog. rewrite (joinpath_name _ "CHANGELOG.md") by discriminate.
  rewrite <- app_assoc, diverge_app. reflexivity.
Qed.

Lemma module_diverges_changelog :
  diverge (_path_dist_module self) (_path_changelog E) = true.
Proof.
  destruct (module_below_src E self Hmodule) as [rest ->].
  unfold _path_changelog. rewrite (joinpath_name _ "CHANGELOG.md") by discriminate.
  rewrite diverge_app. reflexivity.
Qed.

(** X17. When the changelog of the export is a readable file, the module
    directory is there and [CHANGELOG.md] in it is not a directory,
    [_copy_changelog] returns, having made one copy: the module directory
    then holds the text of the changelog under that name, readable, and
    the changelog of the export is still there. *)
Theorem copy_changelog_run (fs : node) (c : content) :
  let target := (_path_dist_module self ++ ["CHANGELOG.md"])%list in
  FS.lookup (_path_changelog E) fs = Some (File true c) ->
  FS.is_dir (_path_dist_module self) fs = true ->
  FS.is_dir target fs = false ->
  let r := _copy_changelog E self fs in
  out r = Ret tt /\
  events r = [Log INFO "Copying changelog..."; CopyFile (_path_changelog E) target] /\
  FS.lookup target (fs_of r) = Some (File true c) /\
  FS.lookup (_path_changelog E) (fs_of r) = Some (File true c).
Proof.
  intros target Hsrc Hmod Htarget r.
  pose proof (changelog_diverges "CHANGELOG.md") as Hd. fold target in Hd.
  destruct (put_in_dir target (File true c) fs) as [fs' Hput].
  { subst target. now destruct (_path_dist_module self). }
  { subst target. now rewrite parent_snoc. }
  assert (Hr : r = Res (Ret tt) fs'
                 [Log INFO "Copying changelog..."; CopyFile (_path_changelog E) target]).
  { subst r. unfold _copy_changelog.
    rewrite (joinpath_name _ "CHANGELOG.md") by discriminate. fold target.
    eapply eq_trans.
    { eapply bind_step; [reflexivity |].
      unfold copy. rewrite get_bind, Htarget.
      apply (copy_to_mode_run _ _ _ c);
        [exact (path_eqb_diverge _ _ Hd) | exact Hsrc | exact Htarget | exact Hput]. }
    reflexivity. }
  rewrite Hr. cbn [out fs_of events].
  split; [reflexivity |]. split; [reflexivity |].
  split; [exact (lookup_put_same _ _ _ _ Hput) |].
  rewrite <- Hsrc. exact (lookup_put_diverge _ _ _ _ _ Hd Hput).
Qed.

(** X18. [exists()] also holds for a directory: when [CHANGELOG.md] in
    the export is a directory and the license copy has returned,
    [build_dist] enters the changelog copy, which raises; the manifest is
    not written and no target is compiled. *)
Theorem build_dist_changelog_directory (qts : list QtVersion) (dt : string)
        (pyenv : option string) (fs : node) :
  FS.is_dir (_path_changelog E) fs = true ->
  out (_copy_licenses E self fs) = Ret tt ->
  let r := build_dist E self qts dt pyenv fs in
  out r = Raise (OSError (str (_path_changelog E))) /\
  fs_of r = fs_of (_copy_licenses E self fs) /\
  steps (events r) = [StepLicenses; StepChangelog].
Proof.
  intros Hdir Hlic r.
  set (fs1 := fs_of (_copy_licenses E self fs)).
  assert (Hdir1 : FS.is_dir (_path_changelog E) fs1 = true).
  { unfold FS.is_dir in *. subst fs1.
    now rewrite (copy_licenses_frame _ module_diverges_changelog fs). }
  assert (Hex1 : FS.exists_ (_path_changelog E) fs1 = true).
  { unfold FS.is_dir, FS.exists_ in *.
    now destruct (FS.lookup (_path_changelog E) fs1). }
  assert (Hcopy : out (_copy_changelog E self fs1) =
                  Raise (OSError (str (_path_changelog E))) /\
                  fs_of (_copy_changelog E self fs1) = fs1).
  { unfold _copy_changelog. rewrite bind_run. cbn [logging emit out fs_of events].
    unfold copy. rewrite get_bind.
    cbv zeta.
    match goal with
    | |- context [copy_to ?s ?d ?m ?f] =>
        destruct (copy_to_directory s d m f Hdir1) as [Ho Hf]; rewrite Ho, Hf
    end.
    auto. }
  destruct Hcopy as [Hcopy_out Hcopy_fs].
  assert (Hr : r = Res (Raise (OSError (str (_path_changelog E)))) fs1
                 (events (_copy_licenses E self fs)
                  ++ events (_copy_changelog E self fs1))%list).
  { subst r. unfold build_dist. rewrite bind_run, Hlic. fold fs1.
    rewrite exists_bind, Hex1. rewrite bind_run, Hcopy_out, Hcopy_fs.
    cbn [out fs_of events]. reflexivity. }
  rewrite Hr. cbn [out fs_of events].
  split; [reflexivity |]. split; [reflexivity |].
  now rewrite steps_app, (copy_licenses_steps E self), (copy_changelog_steps E self).
Qed.

End CopyFacts.

Section CallbackError.

Variable E : Env.
Variable self : AddonBuilder.

(** X19. The callback is called on the file system that the three copies
    leave, and its failure is not caught: when it raises, [build_dist]
    raises the same error with the file system as the callback left it;
    the call of the callback is its last event, and the manifest is not
    written. *)
Theorem build_dist_callback_error (qts : list QtVersion) (dt : string)
        (pyenv : option string) (fs : node) (callback : effect) (e : exn) :
  let r1 := _copy_licenses E self fs in
  let r2 := (if FS.exists_ (_path_changelog E) (fs_of r1)
             then _copy_changelog E self else ret tt) (fs_of r1) in
  let r3 := (if FS.exists_ (_path_optional_icons E) (fs_of r2)
             then _copy_optional_icons E self else ret tt) (fs_of r2) in
  _callback_archive self = Some callback ->
  out r1 = Ret tt -> out r2 = Ret tt -> out r3 = Ret tt ->
  fst (callback (fs_of r3)) = Raise e ->
  let r := build_dist E self qts dt pyenv fs in
  out r = Raise e /\
  fs_of r = snd (callback (fs_of r3)) /\
  events r = events r1 ++ events r2 ++ events r3 ++ [CallbackArchive] /\
  filter version_event (events r) = [].
Proof.
  intros r1 r2 r3 Hcb H1 H2 H3 Hfail r.
  assert (Hr : r = Res (Raise e) (snd (callback (fs_of r3)))
                 (events r1 ++ events r2 ++ events r3 ++ [CallbackArchive])).
  { subst r. unfold build_dist.
    rewrite bind_run. fold r1. rewrite H1.
    rewrite exists_bind, bind_run. fold r2. rewrite H2.
    rewrite exists_bind, bind_run. fold r3. rewrite H3.
    rewrite Hcb, bind_run, call_run, Hfail. cbn [out fs_of events]. reflexivity. }
  rewrite Hr. cbn [out fs_of events].
  split; [reflexivity |]. split; [reflexivity |]. split; [reflexivity |].
  rewrite !filter_app. cbn [filter version_event app].
  assert (Hq : forall A (m : M A) fs0,
             emits quiet_event m -> filter version_event (events (m fs0)) = []).
  { intros A m fs0 Hm. apply (filter_none quiet_event); [apply Hm |].
    exact quiet_not_version. }
  clear Hr H1 H2 H3 Hfail. subst r3 r2 r1.
  rewrite (Hq _ (_copy_licenses E self)).
  2:{ exact (emits_weaken _ _ _ copy_event_quiet (copy_licenses_emits E self)). }
  rewrite (Hq _ (if FS.exists_ (_path_changelog E) (fs_of (_copy_licenses E self fs))
                 then _copy_changelog E self else ret tt)).
  2:{ destruct (FS.exists_ (_path_changelog E) _); [| apply emits_ret].
      exact (emits_weaken _ _ _ copy_event_quiet (copy_changelog_emits E self)). }
  rewrite Hq; [reflexivity |].
  destruct (FS.exists_ (_path_optional_icons E) _); [| apply emits_ret].
  apply copy_optional_icons_emits.
Qed.

End CallbackError.

(** ** The further properties on the sample repositories *)


Lemma package_over_directory_witness :
  _package Sample.clean (Sample.builder "1.2.3") [qt5; qt6] "local" SampleEdges.blocked =
    Res (Raise (OSError "/repo/build/foo-1.2.3-qt5+qt6.ankiaddon")) SampleEdges.blocked
        [Log INFO "Packaging add-on...";
         Unlink ["repo"; "build"; "foo-1.2.3-qt5+qt6.ankiaddon"]%string].
Proof.
  exact (package_over_directory Sample.clean (Sample.builder "1.2.3") [qt5; qt6]
           "local"%string SampleEdges.blocked eq_refl).
Defined.

Lemma package_without_build_dir_witness :
  _package Sample.clean (Sample.builder "1.2.3") [qt5; qt6] "local" SampleEdges.no_build =
    Res (Raise (OSError "/repo/build/foo-1.2.3-qt5+qt6.ankiaddon")) SampleEdges.no_build
        [Log INFO "Packaging add-on...";
         ZipOpen ["repo"; "build"; "foo-1.2.3-qt5+qt6.ankiaddon"]%string].
Proof.
  exact (package_without_build_dir Sample.clean (Sample.builder "1.2.3") [qt5; qt6]
           "local"%string SampleEdges.no_build eq_refl).
Defined.



Lemma init_builder_witness :
  _version (Sample.builder "1.2.3") <> ""%string /\
  _path_dist_module (Sample.builder "1.2.3") =
    ["repo"; "build"; "dist"; "src"; "foo"]%string.
Proof.
  destruct (init_builder Sample.clean None None Sample.fs (Sample.builder "1.2.3")
              eq_refl) as (Hne & _ & _ & _ & Hmod & _).
  split; [exact Hne | exact Hmod].
Defined.

Lemma init_clean_tree_not_dev_witness :
  parse_version (Sample.env "" "dev") (Some "current"%string) = "dev"%string.
Proof.
  exact (init_clean_tree_not_dev (Sample.env "" "dev") None None Sample.fs
           (Sample.builder "dev") eq_refl eq_refl eq_refl).
Defined.

Lemma init_config_error_witness :
  __init__ SampleEdges.config_fails None None Sample.fs =
    Res (Raise (CollaboratorError "addon.json")) Sample.fs
        [GitParseVersion None; Shell "git status --porcelain";
         GitParseVersion (Some "current"%string)].
Proof.
  refine (init_config_error SampleEdges.config_fails None None Sample.fs
            (CollaboratorError "addon.json") _ eq_refl).
  discriminate.
Defined.

Lemma build_dist_is_file_witness :
  out (build Sample.clean (Sample.builder "1.2.3") [qt5; qt6] "local" None
         SampleEdges.dist_is_file) = Raise (OSError "/repo/build/dist") /\
  fs_of (build Sample.clean (Sample.builder "1.2.3") [qt5; qt6] "local" None
           SampleEdges.dist_is_file) = SampleEdges.dist_is_file.
Proof.
  rewrite (build_dist_is_file Sample.clean (Sample.builder "1.2.3") [qt5; qt6]
             "local"%string None SampleEdges.dist_is_file true (Bytes "x") eq_refl).
  split; reflexivity.
Defined.

Lemma build_purge_error_witness :
  out (build SampleEdges.purge_fails (Sample.builder "1.2.3") [qt5; qt6] "local" None
         Sample.fs) = Raise (CollaboratorError "purge").
Proof.
  rewrite (build_purge_error SampleEdges.purge_fails (Sample.builder "1.2.3") [qt5; qt6]
             "local"%string None Sample.fs (CollaboratorError "purge")
             (fun _ => eq_refl) eq_refl).
  reflexivity.
Defined.

Lemma build_mkdir_error_witness :
  out (build Sample.clean (Sample.builder "1.2.3") [qt5; qt6] "local" None
         SampleEdges.build_is_file) = Raise (OSError "/repo/build/dist").
Proof.
  destruct (build_mkdir_error Sample.clean (Sample.builder "1.2.3") [qt5; qt6]
              "local"%string None SampleEdges.build_is_file
              ["repo"; "build"]%string "dist"%string [] true (Bytes "x")
              (fun H => match Bool.diff_false_true H with end) eq_refl eq_refl eq_refl)
    as (Hout & _).
  exact Hout.
Defined.

Lemma build_stops_before_packaging_witness :
  forallb (fun e => negb (packaging_event e))
    (events (build Sample.clean (Sample.builder "1.2.3") [qt5; qt6] "local" None
               SampleEdges.dist_is_file)) = true.
Proof.
  destruct (build_stops_before_packaging Sample.clean (Sample.builder "1.2.3")
              [qt5; qt6] "local"%string None SampleEdges.dist_is_file eq_refl)
    as (_ & _ & _ & Hnone).
  exact Hnone.
Defined.


Lemma copy_licenses_only_adds_witness :
  FS.lookup ["repo"; "build"; "dist"; "LICENSE"]%string
    (fs_of (_copy_licenses Sample.clean (Sample.builder "1.2.3") SampleRuns.licensed)) =
  Some (File true (Bytes "AGPL")).
Proof.
  exact (proj1 (copy_licenses_only_adds Sample.clean (Sample.builder "1.2.3")
                  SampleRuns.licensed ["repo"; "build"; "dist"; "LICENSE"]%string
                  eq_refl)).
Defined.

Lemma license_target_names_witness :
  license_target (Sample.builder "1.2.3") ["repo"; "build"; "dist"; "LICENSE"]%string =
    ["repo"; "build"; "dist"; "src"; "foo"; "LICENSE.txt"]%string /\
  license_target (Sample.builder "1.2.3")
    ["repo"; "build"; "dist"; "resources"; "LICENSE.md"]%string =
    ["repo"; "build"; "dist"; "src"; "foo"; "LICENSE.txt"]%string.
Proof.
  assert (Hs : "LICENSE"%string <> ""%string) by discriminate.
  assert (Hext : "md"%string <> ""%string) by discriminate.
  destruct (license_target_names (Sample.builder "1.2.3")
              ["repo"; "build"; "dist"]%string
              ["repo"; "build"; "dist"; "resources"]%string
              "LICENSE"%string "md"%string Hs Hext eq_refl eq_refl)
    as (H1 & H2 & _).
  split; [exact H1 | exact H2].
Defined.

Lemma copy_changelog_run_witness :
  FS.lookup ["repo"; "build"; "dist"; "src"; "foo"; "CHANGELOG.md"]%string
    (fs_of (_copy_changelog Sample.clean (Sample.builder "1.2.3")
              SampleEdges.with_changelog)) =
  Some (File true (Bytes "1.2.3: fixes")).
Proof.
  destruct (copy_changelog_run Sample.clean (Sample.builder "1.2.3") eq_refl
              SampleEdges.with_changelog (Bytes "1.2.3: fixes") eq_refl eq_refl eq_refl)
    as (_ & _ & Htarget & _).
  exact Htarget.
Defined.

Lemma build_dist_changelog_directory_witness :
  out (build_dist Sample.clean (Sample.builder "1.2.3") [qt5; qt6] "local" None
         SampleEdges.changelog_is_directory) =
    Raise (OSError "/repo/build/dist/CHANGELOG.md").
Proof.
  destruct (build_dist_changelog_directory Sample.clean (Sample.builder "1.2.3") eq_refl
              [qt5; qt6] "local"%string None SampleEdges.changelog_is_directory
              eq_refl eq_refl) as (Hout & _).
  exact Hout.
Defined.

Lemma build_dist_callback_error_witness :
  out (build_dist Sample.clean SampleEdges.builder_with_callback [qt5; qt6] "local" None
         Sample.fs) = Raise (CollaboratorError "callback") /\
  filter version_event
    (events (build_dist Sample.clean SampleEdges.builder_with_callback [qt5; qt6]
               "local" None Sample.fs)) = [].
Proof.
  destruct (build_dist_callback_error Sample.clean SampleEdges.builder_with_callback
              [qt5; qt6] "local"%string None Sample.fs
              (SampleEdges.failing "callback") (CollaboratorError "callback")
              eq_refl eq_refl eq_refl eq_refl eq_refl) as (Hout & _ & _ & Hnone).
  split; [exact Hout | exact Hnone].
Defined.

(** ** License copy: errors *)

Lemma for_fails_at {A} (I : node -> Prop) (l : list A) (f : A -> M unit) (x : A) :
  (forall y fs, I fs -> I (fs_of (f y fs))) ->
  (forall fs, I fs -> succeeded (out (f x fs)) = false) ->
  In x l ->
  forall fs, I fs -> succeeded (out (for_ l f fs)) = false.
Proof.
  intros Hkeep Hfail. induction l as [| y l IH]; intros Hin fs HI; [contradiction |].
  cbn [for_]. rewrite bind_run.
  destruct (out (f y fs)) as [[] | e] eqn:Hy; [| reflexivity].
  cbn [out]. destruct Hin as [-> | Hin].
  - specialize (Hfail fs HI). rewrite Hy in Hfail. discriminate.
  - apply IH; [exact Hin |]. apply Hkeep, HI.
Qed.

Lemma copy_to_without_parent (src dst : path) (mode : option bool) (fs : node) :
  dst <> [] -> FS.is_dir (parent dst) fs = false ->
  succeeded (out (copy_to src dst mode fs)) = false /\
  fs_of (copy_to src dst mode fs) = fs.
Proof.
  intros Hdst Hpar.
  assert (Hput : forall v, FS.put dst v fs = None)
    by (intros v; apply (put_without_parent dst v fs Hdst Hpar)).
  assert (Hl : FS.lookup dst fs = None)
    by apply (put_without_parent dst (Dir []) fs Hdst Hpar).
  unfold copy_to, bind, emit, get_fs, set_fs, raise, FS.is_dir. cbn.
  destruct (path_eqb src dst); [auto |].
  destruct (FS.lookup src fs) as [[[|] c | es] |]; cbn; auto.
  rewrite Hl, Hput. auto.
Qed.

Section LicenseErrors.

Variable E : Env.
Variable self : AddonBuilder.

Local Open Scope string_scope.

Lemma copy_licenses_loops (fs : node) :
  _copy_licenses E self fs =
  (logging INFO "Copying licenses..." ;;
   license_dir_loop self (PATH_DIST E) ;;
   license_dir_loop self (PATH_DIST E // "resources") ;;
   ret tt) fs.
Proof. reflexivity. Qed.

Lemma license_dir_loop_run (dir : path) (fs : node) :
  license_dir_loop self dir fs =
  for_ (FS.glob dir "LICENSE" fs)
       (fun file => copyfile file (license_target self file)) fs.
Proof.
  unfold license_dir_loop. rewrite (license_dir_run self dir fs), for_map.
  apply for_ext. intros file fs'. cbn [fst snd].
  now rewrite license_target_name.
Qed.

(** X20. When the module directory is not in the export but a candidate
    directory holds a license, the first copy raises: [_copy_licenses]
    stops there, having attempted that one copy, and the file system is
    as before. *)
Theorem copy_licenses_without_module (fs : node) :
  license_copies E self fs <> [] ->
  FS.is_dir (_path_dist_module self) fs = false ->
  let r := _copy_licenses E self fs in
  succeeded (out r) = false /\
  fs_of r = fs /\
  events r = [Log INFO "Copying licenses...";
              CopyFile (fst (hd ([], []) (license_copies E self fs)))
                       (snd (hd ([], []) (license_copies E self fs)))].
Proof.
  intros Hsome Hmissing r.
  assert (Hfirst : forall dir file rest fs0,
             FS.glob dir "LICENSE" fs0 = file :: rest ->
             FS.is_dir (_path_dist_module self) fs0 = false ->
             succeeded (out (license_dir_loop self dir fs0)) = false /\
             fs_of (license_dir_loop self dir fs0) = fs0 /\
             events (license_dir_loop self dir fs0) =
               [CopyFile file (license_target self file)]).
  { intros dir file rest fs0 Hglob Hmod.
    rewrite license_dir_loop_run, Hglob. cbn [for_]. rewrite bind_run.
    unfold copyfile.
    destruct (copy_to_without_parent file (license_target self file) None fs0)
      as [Hfail Hfs].
    { rewrite license_target_name. now destruct (_path_dist_module self). }
    { now rewrite license_target_name, parent_snoc. }
    rewrite copy_to_events.
    destruct (out (copy_to file (license_target self file) None fs0));
      [discriminate |].
    cbn [out fs_of events]. auto. }
  subst r. rewrite copy_licenses_loops.
  rewrite bind_run. cbn [logging emit out fs_of events app].
  unfold license_copies, _paths_licenses in *. cbn [flat_map] in *.
  rewrite app_nil_r in *.
  destruct (FS.glob (PATH_DIST E) "LICENSE" fs) as [| file rest] eqn:Hg1.
  - assert (H1 : license_dir_loop self (PATH_DIST E) fs = Res (Ret tt) fs [])
      by (now rewrite license_dir_loop_run, Hg1).
    cbn [map app] in *.
    destruct (FS.glob (PATH_DIST E // "resources") "LICENSE" fs)
      as [| file rest] eqn:Hg2; [contradiction |].
    destruct (Hfirst _ _ _ fs Hg2 Hmissing) as (Hfail & Hfs & Hev).
    rewrite bind_run, H1. cbn [out fs_of events app].
    rewrite bind_run.
    destruct (out (license_dir_loop self (PATH_DIST E // "resources") fs));
      [discriminate |].
    cbn [out fs_of events map hd fst snd]. now rewrite Hfs, Hev.
  - destruct (Hfirst _ _ _ fs Hg1 Hmissing) as (Hfail & Hfs & Hev).
    rewrite bind_run.
    destruct (out (license_dir_loop self (PATH_DIST E) fs)); [discriminate |].
    cbn [out fs_of events map app hd fst snd]. now rewrite Hfs, Hev.
Qed.

Hypothesis Hmodule :
  _path_dist_module self = PATH_DIST E // "src" // module_name (_config self).

Lemma license_file_diverges (fs : node) (dir file other : path) :
  In dir (_paths_licenses E) -> In file (FS.glob dir "LICENSE" fs) ->
  diverge (license_target self other) file = true.
Proof.
  intros Hdir Hfile. rewrite license_target_name.
  apply (license_source_diverges E self Hmodule fs file (stem file +:+ ".txt")).
  unfold license_names. apply in_flat_map. exists dir. split; [exact Hdir |].
  apply in_map_iff. now exists file.
Qed.

Lemma license_dir_loop_fails (fs0 fs : node) (dir file : path) :
  In dir (_paths_licenses E) ->
  In file (FS.glob dir "LICENSE" fs0) ->
  FS.glob dir "LICENSE" fs = FS.glob dir "LICENSE" fs0 ->
  FS.is_dir file fs = true ->
  succeeded (out (license_dir_loop self dir fs)) = false.
Proof.
  intros Hdir Hfile Hsame Hisdir. rewrite license_dir_loop_run, Hsame.
  apply (for_fails_at (fun fs' => FS.is_dir file fs' = true)) with (x := file).
  - intros y fs' HI. unfold FS.is_dir in *. unfold copyfile.
    rewrite (leaves_copy_to file y (license_target self y) None); [exact HI |].
    exact (license_file_diverges fs0 dir file y Hdir Hfile).
  - intros fs' HI. unfold copyfile.
    now rewrite (proj1 (copy_to_directory file _ None fs' HI)).
  - exact Hfile.
  - exact Hisdir.
Qed.

Lemma module_diverges_license (fs : node) (dir file : path) :
  In dir (_paths_licenses E) -> In file (FS.glob dir "LICENSE" fs) ->
  diverge (_path_dist_module self) file = true.
Proof.
  intros Hdir Hfile.
  destruct (module_below_src E self Hmodule) as [rest Hrest].
  pose proof (license_file_diverges fs dir file file Hdir Hfile) as Hd.
  rewrite license_target_name, Hrest in Hd. rewrite Hrest.
  apply glob_entry in Hfile as (entry & -> & Hpre).
  unfold _paths_licenses in Hdir. destruct Hdir as [<- | [<- | []]].
  - rewrite diverge_app. cbn [diverge]. now rewrite (license_not_src _ Hpre).
  - rewrite (joinpath_name _ "resources") by discriminate.
    rewrite <- app_assoc, diverge_app. reflexivity.
Qed.

Lemma module_diverges_resources :
  diverge (_path_dist_module self) (PATH_DIST E // "resources") = true.
Proof.
  destruct (module_below_src E self Hmodule) as [rest ->].
  rewrite (joinpath_name _ "resources") by discriminate.
  rewrite diverge_app. reflexivity.
Qed.

Lemma license_dir_loop_frame (dir q : path) :
  diverge (_path_dist_module self) q = true -> leaves q (license_dir_loop self dir).
Proof.
  intros Hd. unfold license_dir_loop.
  apply leaves_bind; [intros fs; reflexivity |]. intros d.
  destruct (negb d); [apply leaves_ret |].
  apply leaves_bind; [intros fs; reflexivity |]. intros files.
  apply leaves_for. intros file. unfold copyfile.
  apply leaves_copy_to. now apply diverge_joinpath.
Qed.

(** X21. [glob] does not tell files from directories: when an entry of a
    candidate directory whose name starts with [LICENSE] is a directory
    (a [LICENSES] folder, say), [_copy_licenses] raises, at that entry if
    not before. *)
Theorem copy_licenses_directory_entry (fs : node) (dir file : path) :
  In dir (_paths_licenses E) ->
  In file (FS.glob dir "LICENSE" fs) ->
  FS.is_dir file fs = true ->
  succeeded (out (_copy_licenses E self fs)) = false.
Proof.
  intros Hdir Hfile Hisdir.
  rewrite copy_licenses_loops, bind_run. cbn [logging emit out fs_of events].
  rewrite bind_run.
  pose proof Hdir as Hcase. unfold _paths_licenses in Hcase.
  destruct Hcase as [<- | [<- | []]].
  - pose proof (license_dir_loop_fails fs fs (PATH_DIST E) file Hdir Hfile eq_refl
                  Hisdir) as Hfail.
    destruct (out (license_dir_loop self (PATH_DIST E) fs)); [discriminate | reflexivity].
  - destruct (out (license_dir_loop self (PATH_DIST E) fs)) as [[] | e]; [| reflexivity].
    cbn [out]. rewrite bind_run.
    set (fs1 := fs_of (license_dir_loop self (PATH_DIST E) fs)).
    assert (Hfail : succeeded (out (license_dir_loop self (PATH_DIST E // "resources") fs1))
                    = false).
    { apply (license_dir_loop_fails fs fs1 (PATH_DIST E // "resources") file Hdir Hfile).
      - apply glob_frame. subst fs1.
        exact (license_dir_loop_frame _ _ module_diverges_resources fs).
      - unfold FS.is_dir in *. subst fs1.
        now rewrite (license_dir_loop_frame _ _
                       (module_diverges_license fs _ file Hdir Hfile) fs). }
    destruct (out (license_dir_loop self (PATH_DIST E // "resources") fs1));
      [discriminate | reflexivity].
Qed.

End LicenseErrors.

Lemma copy_licenses_without_module_witness :
  succeeded (out (_copy_licenses Sample.clean (Sample.builder "1.2.3")
                    SampleEdges.license_no_module)) = false /\
  fs_of (_copy_licenses Sample.clean (Sample.builder "1.2.3")
           SampleEdges.license_no_module) = SampleEdges.license_no_module.
Proof.
  assert (Hsome : license_copies Sample.clean (Sample.builder "1.2.3")
                    SampleEdges.license_no_module <> []) by discriminate.
  destruct (copy_licenses_without_module Sample.clean (Sample.builder "1.2.3")
              SampleEdges.license_no_module Hsome eq_refl) as (Hfail & Hfs & _).
  split; [exact Hfail | exact Hfs].
Defined.

Lemma copy_licenses_directory_entry_witness :
  succeeded (out (_copy_licenses Sample.clean (Sample.builder "1.2.3")
                    SampleEdges.licenses_folder)) = false.
Proof.
  exact (copy_licenses_directory_entry Sample.clean (Sample.builder "1.2.3") eq_refl
           SampleEdges.licenses_folder ["repo"; "build"; "dist"]%string
           ["repo"; "build"; "dist"; "LICENSES"]%string
           (or_introl eq_refl) (or_introl eq_refl) eq_refl).
Defined.
